(** * Website search backend: a shallow embedding of [backend/app.py]

    The crawl / chunk / index / search pipeline of the backend is embedded
    function by function.  A Python [str] is the list of its characters,
    a character being a code point below 256 (Stdlib's [ascii]); integers are
    [Z] or [nat] where the code counts; a raised exception is a value of
    [exn] carried by the error monad [exc]; the vector store is a finite map
    from collection names to the objects submitted to them.  What the
    program gets from its libraries (HTTP transport, the HTML parser, URL
    joining and splitting, the embedding model, nearest-neighbour search) is
    a [Variable] of the section that uses it. *)

From Stdlib Require Import ZArith Ascii String List Lia.
From Stdlib Require Import Floats.PrimFloat Floats.FloatOps Floats.SpecFloat.
From Stdlib Require Import Numbers.Cyclic.Int63.Uint63.
From stdpp Require Import gmap strings list pretty.

Set Warnings "-register-all,-inexact-float,-clear-no-such-hyp".
Set Default Proof Using "Type".

Local Open Scope nat_scope.

(** ** Python strings *)

Abbreviation str := (list ascii).

(** A string literal of the source. *)
Definition lit (s : string) : str := list_ascii_of_string s.

Definition ord (c : ascii) : nat := nat_of_ascii c.

Definition between (lo hi n : nat) : bool := (lo <=? n) && (n <=? hi).

(** [str.isspace] on one character: the code points below 256 that Python
    counts as whitespace. *)
Definition isspace (c : ascii) : bool :=
  let n := ord c in
  between 9 13 n || between 28 32 n || (n =? 133) || (n =? 160).

(** [str.isalpha] on one character (letters of Latin-1). *)
Definition isalpha (c : ascii) : bool :=
  let n := ord c in
  between 65 90 n || between 97 122 n || (n =? 170) || (n =? 181) ||
  (n =? 186) || between 192 214 n || between 216 246 n || between 248 255 n.

(** The character class [[a-zA-Z0-9_]] of the regular expression. *)
Definition is_word_char (c : ascii) : bool :=
  let n := ord c in
  between 97 122 n || between 65 90 n || between 48 57 n || (n =? 95).

(** [str.lower] on one character. *)
Definition lower_char (c : ascii) : ascii :=
  let n := ord c in
  if between 65 90 n || between 192 214 n || between 216 222 n
  then ascii_of_nat (n + 32) else c.

Definition lower (s : str) : str := map lower_char s.

(** [s.startswith(p)] *)
Fixpoint startswith (p s : str) : bool :=
  match p, s with
  | [], _ => true
  | _ :: _, [] => false
  | a :: p', b :: s' => bool_decide (a = b) && startswith p' s'
  end.

(** [sub in s] *)
Fixpoint contains (sub s : str) : bool :=
  startswith sub s ||
  match s with
  | [] => false
  | _ :: s' => contains sub s'
  end.

(** [s.replace(old, new)] for one-character [old] and [new], the only use
    the program makes of it. *)
Definition replace (old new : ascii) (s : str) : str :=
  map (λ c, if bool_decide (c = old) then new else c) s.

(** [s.lstrip()], [s.rstrip()] and [s.strip()] *)
Fixpoint lstrip (s : str) : str :=
  match s with
  | c :: s' => if isspace c then lstrip s' else s
  | [] => []
  end.

Definition rstrip (s : str) : str := rev (lstrip (rev s)).

Definition strip (s : str) : str := rstrip (lstrip s).

(** [sep.join(parts)] *)
Fixpoint join (sep : str) (parts : list str) : str :=
  match parts with
  | [] => []
  | [p] => p
  | p :: rest => p ++ sep ++ join sep rest
  end.

(** [s.split()]: the maximal runs of non-whitespace characters, in order.
    [cur] is the run being read. *)
Fixpoint split_from (cur : str) (s : str) : list str :=
  match s with
  | [] => if cur is [] then [] else [cur]
  | c :: s' =>
      if isspace c
      then (if cur is [] then split_from [] s' else cur :: split_from [] s')
      else split_from (cur ++ [c]) s'
  end.

Definition split (s : str) : list str := split_from [] s.

(** A word: a non-empty string without whitespace. *)
Definition is_word (w : str) : Prop :=
  w ≠ [] ∧ Forall (λ c, isspace c = false) w.

(** ** Exceptions *)

(** The exceptions the program distinguishes: FastAPI's [HTTPException],
    which carries a status code and a detail, and every other [Exception]
    (a [ValueError] of the URL functions, a [KeyError], a failure of the
    store or of the model), of which only the message matters.  Both are
    subclasses of [Exception], so an [except Exception] clause catches
    either. *)
Inductive exn : Type :=
| HTTPException (status_code : Z) (detail : str)
| Error (message : str).

Inductive exc (A : Type) : Type :=
| Ok (a : A)
| Raise (e : exn).
Arguments Ok {A} a.
Arguments Raise {A} e.

Global Instance exc_ret : MRet exc := λ A a, Ok a.
Global Instance exc_bind : MBind exc := λ A B f m,
  match m with
  | Ok a => f a
  | Raise e => Raise e
  end.
Global Instance exc_fmap : FMap exc := λ A B f m,
  match m with
  | Ok a => Ok (f a)
  | Raise e => Raise e
  end.

(** [try: body except Exception as e: handler(e)] *)
Definition try_except {A} (body : exc A) (handler : exn → exc A) : exc A :=
  match body with
  | Ok a => Ok a
  | Raise e => handler e
  end.

Definition exc_value {A} (d : A) (m : exc A) : A :=
  match m with
  | Ok a => a
  | Raise _ => d
  end.

(** ** Parsed documents

    What the program does with a [BeautifulSoup] object, on the tree the
    parser built: elements with a name, attributes and children, text, and
    the strings the parser keeps in a class of their own (a comment, a
    doctype, a CDATA section, a declaration, a processing instruction). *)

Inductive special : Type :=
| Comment | Doctype | CData | Declaration | ProcessingInstruction.

Inductive node : Type :=
| Text (s : str)
| Special (kind : special) (s : str)
| Element (name : str) (attrs : list (str * str)) (children : list node).

Abbreviation soup := (list node).

(** A node and everything below it, in document order. *)
Fixpoint descendants (n : node) : list node :=
  n :: match n with
       | Text _ | Special _ _ => []
       | Element _ _ children => concat (map descendants children)
       end.

Definition nodes (doc : soup) : list node := concat (map descendants doc).

Definition attr (key : str) (n : node) : option str :=
  match n with
  | Text _ | Special _ _ => None
  | Element _ attrs _ => snd <$> List.find (λ kv, bool_decide (kv.1 = key)) attrs
  end.

Definition is_element (names : list str) (n : node) : bool :=
  match n with
  | Text _ | Special _ _ => false
  | Element name _ _ => bool_decide (name ∈ names)
  end.

(** [a['href'] for a in soup.find_all('a', href=True)] *)
Definition anchor_hrefs (doc : soup) : list str :=
  omap (λ n, if is_element [lit "a"] n then attr (lit "href") n else None)
       (nodes doc).

(** [soup.find(name)] *)
Definition find_tag (name : str) (doc : soup) : option node :=
  List.find (is_element [name]) (nodes doc).

(** [for tag in soup(names): tag.decompose()]: every element with one of
    the names leaves the tree, with all that is below it. *)
Fixpoint decompose (names : list str) (n : node) : list node :=
  match n with
  | Text _ | Special _ _ => [n]
  | Element name attrs children =>
      if bool_decide (name ∈ names) then []
      else [Element name attrs (concat (map (decompose names) children))]
  end.

(** *** Text and markup of a plain tree

    The text and the markup of a tree are the library's to give, and the
    program takes them as they come.  For the examples this is what they
    are on a plain tree: one of elements and text where no element is a
    [template], [rt] or [rp], and no attribute value holds a double
    quote. *)

(** The strings below a node, in document order. *)
Definition strings (n : node) : list str :=
  omap (λ d, match d with
             | Text s | Special CData s => Some s
             | _ => None
             end)
       (descendants n).

Definition plain_tag_text (n : node) : str := concat (strings n).

Definition plain_get_text (sep : str) (doc : soup) : str :=
  join sep (filter (λ s, s ≠ []) (map strip (concat (map strings doc)))).

Definition escape_char (c : ascii) : str :=
  if bool_decide (c = "&"%char) then lit "&amp;"
  else if bool_decide (c = "<"%char) then lit "&lt;"
  else if bool_decide (c = ">"%char) then lit "&gt;"
  else [c].

Definition escape (s : str) : str := concat (map escape_char s).

Definition dquote : ascii := ascii_of_nat 34.

Definition markup_of_attr (kv : str * str) : str :=
  lit " " ++ kv.1 ++ lit "=" ++ [dquote] ++ escape kv.2 ++ [dquote].

Definition void_elements : list str :=
  map lit ["area"; "base"; "br"; "col"; "embed"; "hr"; "img"; "input";
           "link"; "meta"; "param"; "source"; "track"; "wbr"]%string.

Definition special_markup (kind : special) (s : str) : str :=
  match kind with
  | Comment => lit "<!--" ++ s ++ lit "-->"
  | Doctype => lit "<!DOCTYPE " ++ s ++ lit ">"
  | CData => lit "<![CDATA[" ++ s ++ lit "]]>"
  | Declaration => lit "<?" ++ s ++ lit "?>"
  | ProcessingInstruction => lit "<?" ++ s ++ lit ">"
  end.

Fixpoint markup (n : node) : str :=
  match n with
  | Text s => escape s
  | Special kind s => special_markup kind s
  | Element name attrs children =>
      let open := lit "<" ++ name ++ concat (map markup_of_attr attrs) in
      match children with
      | [] =>
          if bool_decide (name ∈ void_elements) then open ++ lit "/>"
          else open ++ lit "></" ++ name ++ lit ">"
      | _ => open ++ lit ">" ++ concat (map markup children)
                  ++ lit "</" ++ name ++ lit ">"
      end
  end.

Definition plain_soup_str (doc : soup) : str := concat (map markup doc).

(** ** Floating-point numbers

    A Python [float] is a binary64 number, here the kernel's primitive
    [float] with its IEEE 754 operations. *)

(** The integer nearest to [num / den], ties to the even one. *)
Definition round_half_even (num den : Z) : Z :=
  let q := (num / den)%Z in
  let r := (num mod den)%Z in
  match (2 * r ?= den)%Z with
  | Lt => q
  | Gt => (q + 1)%Z
  | Eq => if Z.even q then q else (q + 1)%Z
  end.

Definition float_of_Z (n : Z) : float := of_uint63 (Uint63.of_Z n).

(** [round(x, ndigits)] for a float [x] and [0 <= ndigits <= 15]: the exact
    value of [x] is rounded, ties to even, to [ndigits] decimal places, and
    the decimal number obtained is read back as the nearest float.  When the
    scaled value has 2^53 or more as magnitude, [x] is already the float
    nearest to that decimal; not-a-number and the infinities round to
    themselves. *)
Definition py_round (x : float) (ndigits : nat) : float :=
  match Prim2SF x with
  | S754_finite sign m e =>
      let p := (10 ^ Z.of_nat ndigits)%Z in
      let n :=
        match e with
        | Zneg k => round_half_even (Zpos m * p) (2 ^ Zpos k)
        | _ => (Zpos m * 2 ^ e * p)%Z
        end in
      if (n <? 2 ^ 53)%Z then
        let r := (float_of_Z n / float_of_Z p)%float in
        if sign then (- r)%float else r
      else x
  | _ => x
  end.

(** ** Requests, results and stored objects *)

Record SearchRequest : Type := {
  query : str;
  website : str
}.

Record SearchResult : Type := {
  score : float;
  url : str;
  content : str;
  html_snippet : option str
}.

Record SearchResponse : Type := {
  results : list SearchResult;
  time : float;
  total_chunks : nat
}.

(** An object of a collection: its properties, a dictionary from property
    names to text values, and its vector. *)
Record object : Type := {
  properties : gmap string str;
  vector : list float
}.

(** A hit of a nearest-neighbour query: [obj.properties] and
    [obj.metadata.distance]. *)
Record hit : Type := {
  hit_properties : gmap string str;
  distance : float
}.

(** The vector store: the collections by name, each with its objects in
    the order of their submission. *)
Abbreviation store := (gmap str (list object)).

Definition new_object (chunk url html_snippet page_title : str)
    (embedding : list float) : object :=
  {| properties :=
       <["content" := chunk]> (<["url" := url]>
         (<["html_snippet" := html_snippet]> (<["page_title" := page_title]> ∅)));
     vector := embedding |}.

(** The tags [clean_html] removes and the substrings that bar a link. *)
Definition removed_tags : list str :=
  map lit ["script"; "style"; "meta"; "link"; "nav"; "header"; "footer"]%string.

Definition skips : list str :=
  map lit ["#"; "javascript:"; "mailto:"; ".pdf"; ".jpg"; ".png"; ".gif"]%string.

(** [range(0, stop, step)] *)
Definition range_from_0 (stop : nat) (step : Z) : exc (list nat) :=
  if (step =? 0)%Z then Raise (Error (lit "range() arg 3 must not be zero"))
  else if (step <? 0)%Z then Ok []
  else let k := Z.to_nat step in
       Ok (map (λ j, j * k) (seq 0 ((stop + k - 1) / k))).

(** [l[i:j]] for [0 <= i <= j] *)
Definition slice {A} (i j : nat) (l : list A) : list A := take (j - i) (drop i l).

(** The consecutive groups of [k] elements of a list, the last one with
    what is left: what the slices of [chunk_text] cut out of the words. *)
Definition word_groups {A} (k : nat) (l : list A) : list (list A) :=
  map (λ j, take k (drop (j * k) l)) (seq 0 ((length l + k - 1) / k)).

Definition chunk_text (text : str) (max_tokens : Z) : exc (list str) :=
  let words := split text in
  starts ← range_from_0 (length words) max_tokens;
  mret (filter (λ chunk, strip chunk ≠ [])
         (map (λ i, join (lit " ") (slice i (i + Z.to_nat max_tokens) words))
              starts)).

(** [str(e)] for an exception: the message, or for an [HTTPException] what
    the installed Starlette makes of status and detail. *)
Definition exn_str (http_exception_str : Z → str → str) (e : exn) : str :=
  match e with
  | Error message => message
  | HTTPException status_code detail => http_exception_str status_code detail
  end.

(** ** A small site

    One page and the answers of the libraries on it, for the examples: the
    page as the server sends it, the tree the parser builds of it, URL
    joining for a base without a path, and a store that refuses nothing. *)

Definition seed_url : str := lit "https://example.com".

Definition seed_html : str := lit
  "<html><head><title>Example Site</title><script>var hits = 1;</script></head><body><p>Welcome to the example site, a page with enough words to be indexed.</p><a href='/about'>About</a><a href='https://example.com/contact'>Contact</a><a href='https://other.org/'>Elsewhere</a></body></html>".

Definition seed_doc : soup :=
  [Element (lit "html") []
     [Element (lit "head") []
        [Element (lit "title") [] [Text (lit "Example Site")];
         Element (lit "script") [] [Text (lit "var hits = 1;")]];
      Element (lit "body") []
        [Element (lit "p") []
           [Text (lit "Welcome to the example site, a page with enough words to be indexed.")];
         Element (lit "a") [(lit "href", lit "/about")] [Text (lit "About")];
         Element (lit "a") [(lit "href", lit "https://example.com/contact")]
           [Text (lit "Contact")];
         Element (lit "a") [(lit "href", lit "https://other.org/")]
           [Text (lit "Elsewhere")]]]].

(** A second page, whose third anchor is a protocol-relative link to
    another host. *)
Definition docs_url : str := lit "https://docs.example.com".

Definition docs_html : str := lit
  "<html><body><a href='/guide'>Guide</a><a href='/api'>API</a><a href='//cdn.other.org/lib/'>Library</a></body></html>".

Definition docs_doc : soup :=
  [Element (lit "html") []
     [Element (lit "body") []
        [Element (lit "a") [(lit "href", lit "/guide")] [Text (lit "Guide")];
         Element (lit "a") [(lit "href", lit "/api")] [Text (lit "API")];
         Element (lit "a") [(lit "href", lit "//cdn.other.org/lib/")]
           [Text (lit "Library")]]]].

Definition site_http_get (url : str) : exc (Z * str) :=
  if bool_decide (url = seed_url) then Ok (200%Z, seed_html)
  else if bool_decide (url = docs_url) then Ok (200%Z, docs_html)
  else Ok (404%Z, lit "Not Found").

Definition site_parser (html : str) : exc soup :=
  if bool_decide (html = seed_html) then Ok seed_doc
  else if bool_decide (html = docs_html) then Ok docs_doc
  else Ok [Text html].

(** [urljoin] for a base of the form [scheme://host] and a reference that
    begins with a slash: the reference is a path on the host of the base,
    unless it begins with two slashes, when it names a host of its own and
    takes only the scheme of the base. *)
Fixpoint scheme_of (url : str) : str :=
  match url with
  | c :: rest => if bool_decide (c = ":"%char) then [] else c :: scheme_of rest
  | [] => []
  end.

Definition site_urljoin (base href : str) : exc str :=
  if startswith (lit "//") href then Ok (scheme_of base ++ lit ":" ++ href)
  else Ok (base ++ href).

(** The network location of a URL of the plain form [scheme://host/path]:
    what follows the first [//], up to the next [/], [?] or [#]. *)
Fixpoint after_slashes (s : str) : option str :=
  match s with
  | a :: s' =>
      if startswith (lit "//") s then Some (drop 2 s) else after_slashes s'
  | [] => None
  end.

Fixpoint until_delim (s : str) : str :=
  match s with
  | c :: s' =>
      if bool_decide (c = "/"%char) || bool_decide (c = "?"%char) ||
         bool_decide (c = "#"%char)
      then [] else c :: until_delim s'
  | [] => []
  end.

Definition plain_netloc (url : str) : exc str :=
  Ok (default [] (until_delim <$> after_slashes url)).

Definition site_encode (text : str) : exc (list float) :=
  Ok [float_of_Z (Z.of_nat (length text))].

(** Starlette's [__str__] of an [HTTPException]: status, colon, detail. *)
Definition starlette_str (status_code : Z) (detail : str) : str :=
  lit (pretty status_code) ++ lit ": " ++ detail.

Definition no_error (name : str) : option exn := None.

Definition site_near_vector (objects : option (list object))
    (query : list float) (limit : Z) : exc (list hit) :=
  match objects with
  | Some objs =>
      Ok (map (λ o, {| hit_properties := properties o; distance := 0.357 |})
              (take (Z.to_nat limit) objs))
  | None => Raise (Error (lit "collection not found"))
  end.

(** What is expected of the program on the seed page: the one chunk of its
    text, the snippet of its cleaned markup, the object submitted for it,
    the store a first search leaves, and the result of a query on it. *)
Definition seed_chunk : str := lit
  "Example Site Welcome to the example site, a page with enough words to be indexed. About Contact Elsewhere".

Definition seed_snippet : str :=
  take 1000 (plain_soup_str (concat (map (decompose removed_tags) seed_doc))).

Definition seed_object : object :=
  new_object seed_chunk seed_url seed_snippet (lit "Example Site")
    [float_of_Z (Z.of_nat (length seed_chunk))].

Definition seed_store : store := {[ lit "Website_example_com" := [seed_object] ]}.

Definition seed_result : SearchResult :=
  {| score := 0.643;
     url := seed_url;
     content := seed_chunk;
     html_snippet := Some (take 500 seed_snippet) |}.

(** A hit with a long content and a long snippet, and its result. *)
Definition long_hit : hit :=
  {| hit_properties :=
       {[ "url"%string := seed_url;
          "content"%string := replicate 305 "x"%char;
          "html_snippet"%string := replicate 600 "<"%char ]};
     distance := 0.357 |}.

Definition long_result : SearchResult :=
  {| score := 0.643;
     url := seed_url;
     content := replicate 300 "x"%char ++ lit "...";
     html_snippet := Some (replicate 500 "<"%char) |}.

(** A text of 1200 words. *)
Definition text_1200 : str := concat (replicate 1200 (lit "word ")).

(** More of the seed page: its tree after cleaning, the hit and the
    response of a query on it, a request for it, and a store that refuses
    what it is asked. *)
Definition seed_cleaned : soup := concat (map (decompose removed_tags) seed_doc).

Definition seed_hit : hit :=
  {| hit_properties := properties seed_object; distance := 0.357 |}.

Definition seed_request : SearchRequest :=
  {| query := lit "welcome"; website := lit "example.com" |}.


Definition refusal (name : str) : option exn :=
  Some (Error (lit "connection timed out")).

(** ** The program *)

Section backend.

(** The libraries and services the program calls. *)

(** [session.get(url)] with its 10 second timeout: the status and the text
    of the response, or the transport's exception. *)
Variable http_get : str → exc (Z * str).

(** [BeautifulSoup(html, 'html.parser')] *)
Variable html_parser : str → exc soup.

(** What bs4 makes of a tree: [soup.get_text(separator=sep, strip=True)],
    [tag.get_text()] and [str(soup)]. *)
Variable get_text : str → soup → str.
Variable tag_get_text : node → str.
Variable soup_str : soup → str.

(** [urljoin(base, href)] and [urlparse(url).netloc]; either raises
    [ValueError] on some malformed URLs. *)
Variable urljoin : str → str → exc str.
Variable urlparse_netloc : str → exc str.

(** [model.encode(text).tolist()] *)
Variable encode : str → exc (list float).

(** [str(e)] for an [HTTPException]. *)
Variable http_exception_str : Z → str → str.

(** The vector store's answers: the error, if any, with which it refuses to
    delete or to create the collection of a name or to list the
    collections, and its nearest-neighbour query over the objects of a
    collection ([None] when the collection does not exist). *)
Variable delete_error : str → option exn.
Variable create_error : str → option exn.
Variable list_all_error : option exn.
Variable near_vector : option (list object) → list float → Z → exc (list hit).

(** The two readings of [time.perf_counter()] of a request. *)
Variable start_time end_time : float.

Definition fetch_url_content (url : str) : str * str :=
  match http_get url with
  | Ok (status, body) => if (status =? 200)%Z then (url, body) else (url, [])
  | Raise _ => (url, [])
  end.

(** Whether a URL shows one of the barred substrings. *)
Definition skipped (full_url : str) : bool :=
  existsb (λ skip, contains skip (lower full_url)) skips.

(** The loop of [get_website_links] over the anchors' [href] values;
    [links] is the set built so far. *)
Fixpoint collect_links (base_url : str) (max_pages : Z) (hrefs : list str)
    (links : gset str) : exc (gset str) :=
  match hrefs with
  | [] => Ok links
  | href :: rest =>
      let next (full_url : str) : exc (gset str) :=
        let links := if negb (skipped full_url) then {[full_url]} ∪ links
                     else links in
        if (max_pages <=? Z.of_nat (size links))%Z then Ok links
        else collect_links base_url max_pages rest links in
      if startswith (lit "/") href then
        full_url ← urljoin base_url href; next full_url
      else if startswith base_url href then next href
      else collect_links base_url max_pages rest links
  end.

(** What the loop makes of one [href]: the URL it goes on with (or the
    exception of [urljoin]), or nothing when it passes the [href] over. *)
Definition candidate (base_url href : str) : option (exc str) :=
  if startswith (lit "/") href then Some (urljoin base_url href)
  else if startswith base_url href then Some (Ok href)
  else None.

Definition is_candidate (base_url href : str) : bool :=
  startswith (lit "/") href || startswith base_url href.

(** An [href] that passes the test of the loop, with the URL it stands
    for: it begins with [/] and is joined to the seed, or it begins with
    the text of the seed URL and is taken as it is.  A foreign [href]
    begins with neither. *)
Definition prefix_link (base_url href full_url : str) : Prop :=
  (startswith (lit "/") href = true ∧ urljoin base_url href = Ok full_url) ∨
  (startswith (lit "/") href = false ∧ startswith base_url href = true ∧
   full_url = href).

Definition foreign_href (base_url href : str) : Prop :=
  startswith (lit "/") href = false ∧ startswith base_url href = false.

(** The result is the set [links]; the program returns its elements as a
    list, in no particular order.  [try_links] is the body of the [try]
    block. *)
Definition try_links (base_url : str) (max_pages : Z) : exc (gset str) :=
  let '(_, content) := fetch_url_content base_url in
  if content is [] then Ok {[base_url]}
  else
    doc ← html_parser content;
    collect_links base_url max_pages (anchor_hrefs doc) {[base_url]}.

Definition get_website_links (base_url : str) (max_pages : Z) : gset str :=
  match try_links base_url max_pages with
  | Ok links => links
  | Raise _ => {[base_url]}
  end.

Definition clean_html (html : str) : exc soup :=
  doc ← html_parser html;
  mret (concat (map (decompose removed_tags) doc)).

Definition get_collection_name (base_url : str) : exc str :=
  netloc ← urlparse_netloc base_url;
  let domain := replace "-" "_" (replace "." "_" netloc) in
  let domain := filter (λ c, is_word_char c = true) domain in
  let domain :=
    match domain with
    | [] => lit "website_" ++ domain
    | c :: _ => if negb (isalpha c) then lit "website_" ++ domain else domain
    end in
  mret (take 50 (lit "Website_" ++ domain)).

(** *** The index *)

Definition collections_delete (name : str) (st : store) : exc store :=
  match delete_error name with
  | Some e => Raise e
  | None => Ok (delete name st)
  end.

Definition collections_create (name : str) (st : store) : exc store :=
  match create_error name with
  | Some e => Raise e
  | None =>
      if st !! name is Some _
      then Raise (Error (lit "class name " ++ name ++ lit " already exists"))
      else Ok (<[name := []]> st)
  end.

(** The inner loop of [index_website_content], over the chunks of one page:
    the objects submitted to the batch, in order, and the exception that
    ended the loop, if one did.  What was submitted before an exception
    stays submitted. *)
Fixpoint chunk_objects (url : str) (doc : soup) (page_title : str)
    (chunks : list str) : list object * option exn :=
  match chunks with
  | [] => ([], None)
  | chunk :: rest =>
      if 50 <? length (strip chunk) then
        match encode chunk with
        | Raise e => ([], Some e)
        | Ok embedding =>
            let html_snippet := take 1000 (soup_str doc) in
            let '(objs, err) := chunk_objects url doc page_title rest in
            (new_object chunk url html_snippet page_title embedding :: objs, err)
        end
      else chunk_objects url doc page_title rest
  end.

(** The title and the chunks of a cleaned page. *)
Definition page_title_of (doc : soup) : str :=
  match find_tag (lit "title") doc with
  | Some title_tag => strip (tag_get_text title_tag)
  | None => []
  end.

Definition page_chunks (doc : soup) : exc (list str) :=
  chunk_text (get_text (lit " ") doc) 500.

(** The body of the outer loop, for one fetched page with content. *)
Definition page_objects (url html_content : str) : list object * option exn :=
  match clean_html html_content with
  | Raise e => ([], Some e)
  | Ok doc =>
      match page_chunks doc with
      | Raise e => ([], Some e)
      | Ok chunks => chunk_objects url doc (page_title_of doc) chunks
      end
  end.

(** An object is the one submitted for a chunk of a fetched page. *)
Definition submitted_for (url html_content : str) (obj : object) : Prop :=
  ∃ doc chunks chunk embedding,
    clean_html html_content = Ok doc ∧ page_chunks doc = Ok chunks ∧
    chunk ∈ chunks ∧ 50 < length (strip chunk) ∧
    encode chunk = Ok embedding ∧
    obj = new_object chunk url (take 1000 (soup_str doc)) (page_title_of doc)
            embedding.

(** The outer loop, over the fetched pages. *)
Fixpoint batch_objects (fetched : list (str * str)) : list object * option exn :=
  match fetched with
  | [] => ([], None)
  | (url, html_content) :: rest =>
      if html_content is [] then batch_objects rest
      else
        match page_objects url html_content with
        | (objs, Some e) => (objs, Some e)
        | (objs, None) =>
            let '(more, err) := batch_objects rest in (objs ++ more, err)
        end
  end.

(** The two [try] blocks that open [index_website_content]: the deletion
    of the collection, whose failure is passed over, and its creation,
    whose failure is passed over when the message says that the collection
    already exists. *)
Definition delete_existing (collection_name : str) (st : store) : store :=
  match collections_delete collection_name st with
  | Ok st => st
  | Raise _ => st
  end.

Definition create_or_keep (collection_name : str) (st : store) : exc store :=
  try_except (collections_create collection_name st)
    (λ create_error,
       if contains (lit "already exists")
            (exn_str http_exception_str create_error)
       then Ok st else Raise create_error).

(** The store an aborted rebuild leaves behind is not described: an
    exception carries no store. *)
Definition index_website_content (urls : list str) (collection_name : str)
    (st : store) : exc (nat * store) :=
  try_except
    (let st := delete_existing collection_name st in
     st ← create_or_keep collection_name st;
     let fetched := map fetch_url_content urls in
     match batch_objects fetched with
     | (_, Some e) => Raise e
     | (objs, None) =>
         let total_chunks := length objs in
         Ok (total_chunks,
             <[collection_name := default [] (st !! collection_name) ++ objs]> st)
     end)
    (λ e, Raise e).

(** *** The query *)

(** A [KeyError]; its [str()] is the key between single quotes. *)
Definition key_error (key : string) : exn :=
  Error (lit "'" ++ lit key ++ lit "'").

Definition search_result (obj : hit) : exc SearchResult :=
  let score := py_round (1 - distance obj)%float 3 in
  url ← (if hit_properties obj !! "url"%string is Some v then Ok v
         else Raise (key_error "url"));
  content ← (if hit_properties obj !! "content"%string is Some v then Ok v
             else Raise (key_error "content"));
  mret {| score := score;
          url := url;
          content := if 300 <? length content
                     then take 300 content ++ lit "..." else content;
          html_snippet :=
            Some (take 500
                    (default [] (hit_properties obj !! "html_snippet"%string))) |}.

Fixpoint search_results (objects : list hit) : exc (list SearchResult) :=
  match objects with
  | [] => Ok []
  | obj :: rest =>
      result ← search_result obj;
      more ← search_results rest;
      mret (result :: more)
  end.

Definition search_content (query : str) (collection_name : str) (top_k : Z)
    (st : store) : exc (list SearchResult) :=
  try_except
    (query_embedding ← encode query;
     hits ← near_vector (st !! collection_name) query_embedding top_k;
     search_results hits)
    (λ e, Raise e).

(** *** The two operations of the service *)

Definition search_website (data : SearchRequest) (st : store)
    : exc (SearchResponse * store) :=
  try_except
    (if bool_decide (website data = []) || bool_decide (query data = [])
     then Raise (HTTPException 400 (lit "Website URL and query are required"))
     else
       let website :=
         if startswith (lit "http://") (website data)
            || startswith (lit "https://") (website data)
         then website data else lit "https://" ++ website data in
       collection_name ← get_collection_name website;
       let urls := elements (get_website_links website 1500) in
       '(total_chunks, st) ← index_website_content urls collection_name st;
       results ← search_content (query data) collection_name 10 st;
       let duration := py_round (end_time - start_time)%float 2 in
       mret ({| results := results; time := duration;
                total_chunks := total_chunks |}, st))
    (λ e, Raise (HTTPException 500 (exn_str http_exception_str e))).

(** [collections.list_all()]: a dictionary of the collections, keyed by
    their names.  A loop over a dictionary runs over its keys, so what is
    listed here is the names, which are strings. *)
Definition collections_list_all (st : store) : exc (list str) :=
  match list_all_error with
  | Some e => Raise e
  | None => Ok (elements (dom st))
  end.

(** [collection.name] for a key of that dictionary: a [str] has no
    attribute [name]. *)
Definition attribute_error : exn :=
  Error (lit "'str' object has no attribute 'name'").

Definition collection_name_of (collection : str) : exc str :=
  Raise attribute_error.

(** The loop of [clear_all_collections] over the listed collections. *)
Fixpoint sweep (collections : list str) (deleted_count : nat) (st : store)
    : exc (nat * store) :=
  match collections with
  | [] => Ok (deleted_count, st)
  | collection :: rest =>
      name ← collection_name_of collection;
      if startswith (lit "Website_") name then
        match collections_delete name st with
        | Ok st => sweep rest (deleted_count + 1) st
        | Raise _ => sweep rest deleted_count st
        end
      else sweep rest deleted_count st
  end.

(** The response is the message built from the count; the count itself is
    returned here. *)
Definition clear_all_collections (st : store) : exc (nat * store) :=
  try_except
    (collections ← collections_list_all st;
     sweep collections 0 st)
    (λ e, Raise (HTTPException 500 (exn_str http_exception_str e))).

(** Forget the services a statement does not mention, so that the
    solvers cannot tie a proof to them. *)
Ltac forget_unused :=
  repeat match goal with x : _ |- _ => clear x end.

(** ** Properties of the string functions *)

Lemma startswith_prefix (p s : str) : startswith p s = true ↔ p `prefix_of` s.
Proof.
  revert s; induction p as [|a p IH]; intros s; simpl.
  - split; [intros _; apply prefix_nil | done].
  - destruct s as [|b s].
    + split; [done | intros [k Hk]; discriminate].
    + rewrite andb_true_iff, bool_decide_eq_true, IH. split.
      * intros [-> Hp]. by apply prefix_cons.
      * intros [k Hk]. injection Hk as -> ->. split; [done | by exists k].
Qed.

Lemma startswith_app (p s : str) : startswith p (p ++ s) = true.
Proof. apply startswith_prefix. by exists s. Qed.

Lemma contains_spec (sub s : str) :
  contains sub s = true ↔ ∃ before after, s = before ++ sub ++ after.
Proof.
  induction s as [|c s IH]; simpl.
  - rewrite orb_false_r, startswith_prefix. split.
    + intros [k Hk]. by exists [], k.
    + intros (before & after & H). symmetry in H.
      apply app_eq_nil in H as [-> H]. apply app_eq_nil in H as [-> _].
      apply prefix_nil.
  - rewrite orb_true_iff, IH, startswith_prefix. split.
    + intros [[k Hk] | (before & after & ->)].
      * by exists [], k.
      * by exists (c :: before), after.
    + intros (before & after & H). destruct before as [|b before].
      * left. by exists after.
      * right. injection H as _ ->. by exists before, after.
Qed.

Lemma lower_app (s t : str) : lower (s ++ t) = lower s ++ lower t.
Proof. apply map_app. Qed.

(** A substring stays a substring when both strings are lowered. *)
Lemma contains_lower (sub s : str) :
  contains sub s = true → contains (lower sub) (lower s) = true.
Proof.
  rewrite !contains_spec. intros (before & after & ->).
  exists (lower before), (lower after). by rewrite !lower_app.
Qed.

Lemma lstrip_nil (s : str) :
  lstrip s = [] ↔ Forall (λ c, isspace c = true) s.
Proof.
  induction s as [|c s IH]; simpl.
  - split; [constructor | done].
  - destruct (isspace c) eqn:Hc.
    + rewrite IH. split; [by constructor | by inversion 1].
    + split; [done | inversion 1; congruence].
Qed.

Lemma lstrip_spaces_or_head (s : str) :
  lstrip s = [] ∨ ∃ c rest, lstrip s = c :: rest ∧ isspace c = false.
Proof.
  induction s as [|c s IH]; simpl; [by left |].
  destruct (isspace c) eqn:Hc; [done | right; eauto].
Qed.

Lemma lstrip_suffix (s : str) : lstrip s `suffix_of` s.
Proof.
  induction s as [|c s IH]; simpl; [done |].
  destruct (isspace c); [by apply suffix_cons_r | done].
Qed.

Lemma strip_nil (s : str) :
  strip s = [] ↔ Forall (λ c, isspace c = true) s.
Proof.
  unfold strip, rstrip. split.
  - intros H. apply (f_equal (λ l, rev l)) in H. rewrite rev_involutive in H.
    simpl in H. apply lstrip_nil in H. apply lstrip_nil.
    destruct (lstrip_spaces_or_head s) as [E | (c & rest & E & Hc)]; [done |].
    rewrite E in H. apply Forall_rev in H. rewrite rev_involutive in H.
    inversion H; congruence.
  - intros H. apply lstrip_nil in H. by rewrite H.
Qed.

Lemma strip_length (s : str) : length (strip s) ≤ length s.
Proof.
  unfold strip, rstrip. rewrite length_rev.
  etrans; [apply suffix_length, lstrip_suffix |].
  rewrite length_rev. apply suffix_length, lstrip_suffix.
Qed.

Lemma split_from_words (cur s : str) :
  Forall (λ c, isspace c = false) cur → Forall is_word (split_from cur s).
Proof.
  revert cur; induction s as [|c s IH]; intros cur Hcur; simpl.
  - destruct cur; [apply Forall_nil_2 |].
    apply Forall_cons_2; [by split | apply Forall_nil_2].
  - destruct (isspace c) eqn:Hc.
    + destruct cur; [by apply IH |].
      apply Forall_cons_2; [by split | by apply IH].
    + apply IH, Forall_app. split; [done |].
      apply Forall_cons_2; [done | apply Forall_nil_2].
Qed.

Lemma split_words (s : str) : Forall is_word (split s).
Proof. by apply split_from_words. Qed.

Lemma split_from_app (cur w s : str) :
  Forall (λ c, isspace c = false) w →
  split_from cur (w ++ s) = split_from (cur ++ w) s.
Proof.
  revert cur; induction w as [|c w IH]; intros cur Hw; simpl.
  - by rewrite app_nil_r.
  - inversion Hw as [|? ? Hc Hw']; subst. rewrite Hc, IH by done.
    by rewrite <- app_assoc.
Qed.

Lemma split_from_space (cur s : str) :
  cur ≠ [] → split_from cur (" "%char :: s) = cur :: split_from [] s.
Proof. by destruct cur. Qed.

(** Joining words with single spaces and splitting again gives the words. *)
Lemma split_join (ws : list str) :
  Forall is_word ws → split (join (lit " ") ws) = ws.
Proof.
  unfold split. induction 1 as [|w ws [Hne Hw] Hws IH]; [done |].
  destruct ws as [|w' ws].
  - pose proof (split_from_app [] w [] Hw) as E.
    rewrite app_nil_r in E. simpl in *. rewrite E. by destruct w.
  - change (join (lit " ") (w :: w' :: ws))
      with (w ++ " "%char :: join (lit " ") (w' :: ws)).
    rewrite split_from_app, app_nil_l, split_from_space, IH by done.
    done.
Qed.

(** A chunk made of at least one word is not blank. *)
Lemma strip_join_words (ws : list str) :
  ws ≠ [] → Forall is_word ws → strip (join (lit " ") ws) ≠ [].
Proof.
  intros Hne Hws Hs. apply strip_nil in Hs.
  destruct Hws as [|w ws [Hw Hc] Hws]; [done |].
  destruct w as [|c w]; [done |].
  assert (isspace c = true) as Hsp.
  { destruct ws; simpl in Hs; by inversion Hs. }
  inversion Hc; congruence.
Qed.

(** ** Chunking *)

Lemma concat_word_groups {A} (k c : nat) (l : list A) :
  concat (map (λ j, take k (drop (j * k) l)) (seq 0 c)) = take (c * k) l.
Proof.
  induction c as [|c IH]; [done |].
  rewrite seq_S, map_app, concat_app, IH. simpl. rewrite app_nil_r.
  rewrite take_take_drop. f_equal. lia.
Qed.

Lemma group_count_covers (n k : nat) : 0 < k → n ≤ (n + k - 1) / k * k.
Proof.
  intros Hk. pose proof (Nat.div_mod (n + k - 1) k ltac:(lia)) as E.
  pose proof (Nat.mod_upper_bound (n + k - 1) k ltac:(lia)). nia.
Qed.

Lemma group_start_inside (n k j : nat) :
  0 < k → j < (n + k - 1) / k → j * k < n.
Proof.
  intros Hk Hj. pose proof (Nat.div_mod (n + k - 1) k ltac:(lia)) as E.
  pose proof (Nat.mod_upper_bound (n + k - 1) k ltac:(lia)). nia.
Qed.

Lemma concat_groups {A} (k : nat) (l : list A) :
  0 < k → concat (word_groups k l) = l.
Proof.
  intros Hk. unfold word_groups. rewrite concat_word_groups.
  apply take_ge, group_count_covers, Hk.
Qed.

Lemma groups_of_words (k : nat) (ws : list str) :
  0 < k → Forall is_word ws →
  Forall (λ g, g ≠ [] ∧ Forall is_word g) (word_groups k ws).
Proof.
  intros Hk Hws. unfold word_groups. apply Forall_forall. intros g Hg.
  apply list_elem_of_In, in_map_iff in Hg as (j & <- & Hj).
  apply in_seq in Hj. split.
  - pose proof (group_start_inside (length ws) k j Hk ltac:(lia)) as Hlt.
    intros E. apply (f_equal length) in E.
    rewrite length_take, length_drop in E. simpl in E. lia.
  - by apply Forall_take, Forall_drop.
Qed.

(** With a positive [max_tokens] the chunks are the groups of words, each
    joined with single spaces: no group is dropped as blank. *)
Lemma chunk_text_groups (text : str) (max_tokens : Z) :
  (0 < max_tokens)%Z →
  chunk_text text max_tokens
  = Ok (map (join (lit " ")) (word_groups (Z.to_nat max_tokens) (split text))).
Proof.
  intros Hpos. unfold chunk_text, range_from_0.
  destruct (Z.eqb_spec max_tokens 0) as [|_]; [lia |].
  destruct (Z.ltb_spec max_tokens 0) as [|_]; [lia |].
  simpl. f_equal. rewrite map_map.
  set (k := Z.to_nat max_tokens). assert (0 < k) as Hk by lia.
  pose proof (groups_of_words k (split text) Hk (split_words text)) as Hg.
  unfold word_groups in *. rewrite map_map.
  induction (seq 0 ((length (split text) + k - 1) / k)) as [|j js IH];
    [done |].
  simpl in *. apply Forall_cons in Hg as [[Hne Hw] Hg].
  unfold slice. replace (j * k + k - j * k) with k by lia.
  rewrite filter_cons_True by (by apply strip_join_words).
  f_equal. by apply IH.
Qed.

Lemma split_joined_groups (groups : list (list str)) :
  Forall (λ g, g ≠ [] ∧ Forall is_word g) groups →
  map split (map (join (lit " ")) groups) = groups.
Proof.
  induction 1 as [|g groups [_ Hg] _ IH]; [done |].
  cbn [map]. by rewrite split_join, IH.
Qed.

Lemma word_counts_of_joined_groups (groups : list (list str)) :
  Forall (λ g, g ≠ [] ∧ Forall is_word g) groups →
  map (λ chunk, length (split chunk)) (map (join (lit " ")) groups)
  = map length groups.
Proof.
  induction 1 as [|g groups [_ Hg] _ IH]; [done |].
  cbn [map]. by rewrite split_join, IH.
Qed.

(** C6. For every text and every positive [max_tokens], [chunk_text]
    returns chunks whose words, concatenated in order, are exactly the
    words of the text; and a text of 1200 words with [max_tokens = 500]
    gives three chunks, of 500, 500 and 200 words. *)
Theorem chunk_text_reproduces_words (text : str) (max_tokens : Z) :
  (0 < max_tokens)%Z →
  ∃ chunks,
    chunk_text text max_tokens = Ok chunks ∧
    concat (map split chunks) = split text ∧
    (max_tokens = 500%Z → length (split text) = 1200 →
     map (λ chunk, length (split chunk)) chunks = [500; 500; 200]).
Proof.
  intros Hpos. eexists. split; [by apply chunk_text_groups |].
  set (k := Z.to_nat max_tokens). assert (0 < k) as Hk by lia.
  pose proof (groups_of_words k (split text) Hk (split_words text)) as Hg.
  rewrite split_joined_groups by done. split; [by apply concat_groups |].
  intros -> Hlen. rewrite word_counts_of_joined_groups by done.
  subst k. unfold word_groups. rewrite Hlen.
  change ((1200 + Z.to_nat 500 - 1) / Z.to_nat 500) with 3.
  cbn [seq map]. rewrite !length_take, !length_drop, Hlen.
  change (Z.to_nat 500) with 500. repeat f_equal; lia.
Qed.

(** ** Collection names *)

Lemma get_collection_name_ok (base_url netloc : str) :
  urlparse_netloc base_url = Ok netloc →
  ∃ domain, get_collection_name base_url
            = Ok (take 50 (lit "Website_" ++ domain)).
Proof.
  intros E. unfold get_collection_name. rewrite E. eexists. reflexivity.
Qed.

Lemma get_collection_name_inv (base_url name : str) :
  get_collection_name base_url = Ok name →
  ∃ domain, name = take 50 (lit "Website_" ++ domain).
Proof.
  unfold get_collection_name. destruct (urlparse_netloc base_url); [|done].
  intros [= <-]. eexists. reflexivity.
Qed.

Lemma get_collection_name_raise (base_url : str) (e : exn) :
  urlparse_netloc base_url = Raise e → get_collection_name base_url = Raise e.
Proof. intros E. unfold get_collection_name. by rewrite E. Qed.

Lemma prefixed_name_shape (domain : str) :
  length (take 50 (lit "Website_" ++ domain)) ≤ 50 ∧
  startswith (lit "Website_") (take 50 (lit "Website_" ++ domain)) = true ∧
  ∃ rest, take 50 (lit "Website_" ++ domain) = "W"%char :: rest.
Proof.
  split; [rewrite length_take; lia |]. split; [| by eexists].
  change 50 with (length (lit "Website_") + 42).
  rewrite take_app_add. apply startswith_app.
Qed.

(** C3. The collection name depends on the URL alone: equal URLs give
    equal outcomes.  When [urlparse] accepts the URL a name is returned, it
    has at most 50 characters and its first character is alphabetic; when
    [urlparse] raises, so does the derivation. *)
Theorem get_collection_name_pure_bounded (base_url other_url : str) :
  base_url = other_url →
  get_collection_name base_url = get_collection_name other_url ∧
  match urlparse_netloc base_url with
  | Ok _ =>
      ∃ name c rest,
        get_collection_name base_url = Ok name ∧
        length name ≤ 50 ∧ name = c :: rest ∧ isalpha c = true
  | Raise e => get_collection_name base_url = Raise e
  end.
Proof.
  intros <-. split; [done |].
  destruct (urlparse_netloc base_url) as [netloc | e] eqn:E.
  - destruct (get_collection_name_ok _ _ E) as [domain ->].
    destruct (prefixed_name_shape domain) as (Hlen & _ & rest & Hrest).
    exists (take 50 (lit "Website_" ++ domain)), "W"%char, rest.
    by repeat split.
  - by apply get_collection_name_raise.
Qed.

(** ** The query *)

Lemma search_result_inv (obj : hit) (result : SearchResult) :
  search_result obj = Ok result →
  ∃ stored_url stored,
    hit_properties obj !! "url"%string = Some stored_url ∧
    hit_properties obj !! "content"%string = Some stored ∧
    result = {| score := py_round (1 - distance obj)%float 3;
                url := stored_url;
                content := if 300 <? length stored
                           then take 300 stored ++ lit "..." else stored;
                html_snippet :=
                  Some (take 500 (default []
                          (hit_properties obj !! "html_snippet"%string))) |}.
Proof.
  unfold search_result.
  destruct (hit_properties obj !! "url"%string) as [u|]; [|done].
  destruct (hit_properties obj !! "content"%string) as [c|]; [|done].
  intros [= <-]. by exists u, c.
Qed.

Lemma search_results_each (objects : list hit) (res : list SearchResult) :
  search_results objects = Ok res →
  Forall2 (λ obj result, search_result obj = Ok result) objects res.
Proof.
  revert res; induction objects as [|obj objects IH]; intros res; simpl.
  - intros [= <-]. constructor.
  - destruct (search_result obj) as [r|] eqn:Er; [|done]. simpl.
    destruct (search_results objects) as [rs|]; [|done]. simpl.
    intros [= <-]. constructor; [done | by apply IH].
Qed.

Lemma search_content_inv (query collection_name : str) (top_k : Z)
    (st : store) (res : list SearchResult) :
  search_content query collection_name top_k st = Ok res →
  ∃ query_embedding hits,
    encode query = Ok query_embedding ∧
    near_vector (st !! collection_name) query_embedding top_k = Ok hits ∧
    Forall2 (λ obj result, search_result obj = Ok result) hits res.
Proof.
  unfold search_content, try_except.
  destruct (encode query) as [emb|] eqn:Ee; [|done]. simpl.
  destruct (near_vector (st !! collection_name) emb top_k) as [hits|] eqn:En;
    [|done]. simpl.
  destruct (search_results hits) as [rs|] eqn:Er; [|done].
  intros [= <-]. exists emb, hits. eauto using search_results_each.
Qed.

(** [round_half_even] gives an integer nearest to the quotient, the even
    one of the two when both are as near. *)
Lemma round_half_even_nearest (num den : Z) :
  (0 < den)%Z →
  (Z.abs (2 * (round_half_even num den * den - num)) ≤ den)%Z ∧
  (Z.abs (2 * (round_half_even num den * den - num)) = den →
   Z.even (round_half_even num den) = true).
Proof.
  forget_unused.
  intros Hden. unfold round_half_even.
  pose proof (Z.div_mod num den ltac:(lia)) as Hdm.
  pose proof (Z.mod_pos_bound num den Hden) as Hr.
  set (q := (num / den)%Z) in *. set (r := (num mod den)%Z) in *.
  destruct (Z.compare_spec (2 * r) den) as [He | Hl | Hg].
  - destruct (Z.even q) eqn:Hq.
    + split; [nia | done].
    + split; [nia |]. intros _.
      by rewrite Z.add_1_r, Z.even_succ, <- Z.negb_even, Hq.
  - split; [nia |]. intros Ht. exfalso. nia.
  - split; [nia |]. intros Ht. exfalso. nia.
Qed.

(** [round(x, 3)] for a number [x] of magnitude [m / 2^k], at most 1: the
    float nearest to [n / 1000], with the sign of [x], for an integer [n]
    nearest to [1000 * m / 2^k], the even one on a tie. *)
Lemma py_round_thousandths (x : float) (sign : bool) (m k : positive) :
  Prim2SF x = S754_finite sign m (Zneg k) →
  (Zpos m ≤ 2 ^ Zpos k)%Z →
  ∃ n : Z,
    (0 ≤ n ≤ 1000)%Z ∧
    (Z.abs (2 * (n * 2 ^ Zpos k - Zpos m * 1000)) ≤ 2 ^ Zpos k)%Z ∧
    (Z.abs (2 * (n * 2 ^ Zpos k - Zpos m * 1000)) = 2 ^ Zpos k →
     Z.even n = true)%Z ∧
    py_round x 3
    = (if sign then - (float_of_Z n / 1000) else float_of_Z n / 1000)%float.
Proof.
  forget_unused.
  intros Hx Hm. unfold py_round. rewrite Hx.
  change (10 ^ Z.of_nat 3)%Z with 1000%Z.
  change (float_of_Z 1000) with 1000%float.
  assert (0 < 2 ^ Zpos k)%Z as Hden by (apply Z.pow_pos_nonneg; lia).
  destruct (round_half_even_nearest (Zpos m * 1000) (2 ^ Zpos k) Hden)
    as [Hnear Htie].
  set (n := round_half_even (Zpos m * 1000) (2 ^ Zpos k)) in *.
  assert (0 ≤ n ≤ 1000)%Z as Hn by nia.
  exists n. split; [done |]. split; [done |]. split; [done |].
  assert ((n <? 2 ^ 53)%Z = true) as -> by (apply Z.ltb_lt; lia).
  done.
Qed.

(** C8. Every result of a query corresponds, in order, to a hit of the
    vector store, and its score is [round(1 - d, 3)] for the distance [d]
    of the hit.  When the similarity [1 - d] is a number of magnitude
    [m / 2^k], at most 1, the score is the float nearest to [n / 1000],
    with the sign of the similarity, for the integer [n] nearest to
    [1000 * m / 2^k], the even one on a tie: the similarity rounded to
    three decimals.  So the score is 1.0 for distance 0, 0.0 for distance
    1 and 0.643 for distance 0.357; it is 0.643 also for distance 0.3574
    and 0.642 for distance 0.3576, 1.0 for distance 0.0004, and on the
    ties it is 0.062 for distance 0.9375 and 0.188 for distance 0.8125. *)
Theorem score_is_rounded_similarity (query collection_name : str)
    (top_k : Z) (st : store) (res : list SearchResult) :
  search_content query collection_name top_k st = Ok res →
  ∃ query_embedding hits,
    encode query = Ok query_embedding ∧
    near_vector (st !! collection_name) query_embedding top_k = Ok hits ∧
    Forall2 (λ obj result,
               score result = py_round (1 - distance obj)%float 3 ∧
               (∀ sign m k,
                  Prim2SF (1 - distance obj)%float
                  = S754_finite sign m (Zneg k) →
                  (Zpos m ≤ 2 ^ Zpos k)%Z →
                  ∃ n : Z,
                    (0 ≤ n ≤ 1000)%Z ∧
                    (Z.abs (2 * (n * 2 ^ Zpos k - Zpos m * 1000))
                     ≤ 2 ^ Zpos k)%Z ∧
                    (Z.abs (2 * (n * 2 ^ Zpos k - Zpos m * 1000))
                     = 2 ^ Zpos k → Z.even n = true)%Z ∧
                    score result
                    = (if sign then - (float_of_Z n / 1000)
                       else float_of_Z n / 1000)%float) ∧
               (distance obj = 0%float → score result = 1%float) ∧
               (distance obj = 1%float → score result = 0%float) ∧
               (distance obj = 0.357%float → score result = 0.643%float) ∧
               (distance obj = 0.3574%float → score result = 0.643%float) ∧
               (distance obj = 0.3576%float → score result = 0.642%float) ∧
               (distance obj = 0.0004%float → score result = 1%float) ∧
               (distance obj = 0.9375%float → score result = 0.062%float) ∧
               (distance obj = 0.8125%float → score result = 0.188%float))
            hits res.
Proof.
  intros (emb & hits & Ee & En & Hall)%search_content_inv.
  exists emb, hits. repeat split; [done | done |].
  eapply Forall2_impl; [exact Hall |].
  intros obj result (u & c & _ & _ & ->)%search_result_inv.
  cbn [score]. split; [done |]. split.
  { intros sign m k Hx Hm. by apply py_round_thousandths. }
  repeat split; intros ->; vm_compute; reflexivity.
Qed.

(** C9. The content of a result is the stored content when that has at
    most 300 characters, and otherwise its first 300 characters followed by
    three dots; the markup snippet of a result is the first 500 characters
    at most of the stored snippet. *)
Theorem search_result_truncation (obj : hit) (result : SearchResult) :
  search_result obj = Ok result →
  ∃ stored snippet,
    hit_properties obj !! "content"%string = Some stored ∧
    (length stored ≤ 300 → content result = stored) ∧
    (300 < length stored →
       content result = take 300 stored ++ lit "..." ∧
       length (content result) = 303) ∧
    html_snippet result = Some snippet ∧
    snippet = take 500 (default [] (hit_properties obj !! "html_snippet"%string)) ∧
    length snippet ≤ 500.
Proof.
  intros (u & stored & _ & Hc & ->)%search_result_inv. simpl.
  exists stored, (take 500 (default [] (hit_properties obj !! "html_snippet"%string))).
  split; [done |]. split; [| split; [| split; [done | split; [done |]]]].
  - intros Hle. destruct (Nat.ltb_spec 300 (length stored)); [lia | done].
  - intros Hlt. destruct (Nat.ltb_spec 300 (length stored)); [| lia].
    split; [done |]. by rewrite length_app, length_take_le by lia.
  - rewrite length_take. lia.
Qed.

(** ** The search operation *)

(** Every failure of a search leaves as an [HTTPException] of status 500. *)
Lemma search_website_failures_are_500 (data : SearchRequest) (st : store)
    (e : exn) :
  search_website data st = Raise e → ∃ detail, e = HTTPException 500 detail.
Proof.
  unfold search_website, try_except.
  destruct (if _ : bool then _ else _); [done |]. intros [= <-]. eauto.
Qed.

(** C1 (the code differs). A request with an empty website or an empty
    query raises the [HTTPException] of status 400 inside the [try] block,
    whose [except Exception] clause catches it: the handler answers with
    status 500, as it does for every internal failure. *)
Theorem validation_failure_is_server_error (data : SearchRequest)
    (st : store) :
  website data = [] ∨ query data = [] →
  search_website data st
  = Raise (HTTPException 500
             (http_exception_str 400
                (lit "Website URL and query are required"))).
Proof.
  intros H. unfold search_website.
  assert (bool_decide (website data = []) || bool_decide (query data = [])
          = true) as ->; [| done].
  apply orb_true_iff. destruct H; [left | right]; by apply bool_decide_eq_true.
Qed.

(** ** The index: what is submitted *)

Lemma new_object_properties (chunk url snippet title : str)
    (embedding : list float) :
  properties (new_object chunk url snippet title embedding)
    !! "content"%string = Some chunk ∧
  properties (new_object chunk url snippet title embedding)
    !! "url"%string = Some url ∧
  properties (new_object chunk url snippet title embedding)
    !! "html_snippet"%string = Some snippet ∧
  properties (new_object chunk url snippet title embedding)
    !! "page_title"%string = Some title.
Proof. repeat split; vm_compute; reflexivity. Qed.

Lemma chunk_objects_sound (url : str) (doc : soup) (title : str)
    (chunks : list str) (obj : object) :
  obj ∈ (chunk_objects url doc title chunks).1 →
  ∃ chunk embedding,
    chunk ∈ chunks ∧ 50 < length (strip chunk) ∧
    encode chunk = Ok embedding ∧
    obj = new_object chunk url (take 1000 (soup_str doc)) title embedding.
Proof.
  induction chunks as [|chunk rest IH]; simpl; [by intros ?%elem_of_nil |].
  destruct (Nat.ltb_spec 50 (length (strip chunk))) as [Hlong | Hshort].
  - destruct (encode chunk) as [emb|] eqn:Ee; [| by intros ?%elem_of_nil].
    destruct (chunk_objects url doc title rest) as [objs err]. simpl in *.
    intros [-> | Hin]%elem_of_cons.
    + exists chunk, emb. split; [left |]; done.
    + destruct (IH Hin) as (c & e & ? & ?). exists c, e.
      split; [by right | done].
  - intros Hin. destruct (IH Hin) as (c & e & ? & ?). exists c, e.
    split; [by right | done].
Qed.


Lemma page_objects_sound (url html : str) (obj : object) :
  obj ∈ (page_objects url html).1 → submitted_for url html obj.
Proof.
  unfold page_objects, submitted_for.
  destruct (clean_html html) as [doc|]; [| by intros ?%elem_of_nil].
  destruct (page_chunks doc) as [chunks|] eqn:Ec; [| by intros ?%elem_of_nil].
  intros (chunk & emb & ? & ? & ? & ?)%chunk_objects_sound.
  by exists doc, chunks, chunk, emb.
Qed.


Lemma batch_objects_sound (fetched : list (str * str)) (obj : object) :
  obj ∈ (batch_objects fetched).1 →
  ∃ url html, (url, html) ∈ fetched ∧ html ≠ [] ∧ submitted_for url html obj.
Proof.
  induction fetched as [|[url html] rest IH]; simpl;
    [by intros ?%elem_of_nil |].
  assert (obj ∈ (batch_objects rest).1 →
          ∃ url' html', (url', html') ∈ (url, html) :: rest ∧ html' ≠ [] ∧
                        submitted_for url' html' obj) as Hrest.
  { intros (u & h & ? & ?)%IH. exists u, h. split; [by right | done]. }
  destruct html as [|c html]; [done |].
  pose proof (page_objects_sound url (c :: html) obj) as Hpage.
  destruct (page_objects url (c :: html)) as [objs [e|]]; simpl in *.
  - intros Hin. exists url, (c :: html). split; [left | auto].
  - destruct (batch_objects rest) as [more err]. simpl in *.
    intros [Hin | Hin]%elem_of_app; [| auto].
    exists url, (c :: html). split; [left | auto].
Qed.


Lemma delete_existing_names (collection_name name : str) (st : store) :
  is_Some (delete_existing collection_name st !! name) → is_Some (st !! name).
Proof.
  unfold delete_existing, collections_delete.
  destruct (delete_error collection_name); [done |].
  destruct (decide (name = collection_name)) as [-> | Hne].
  - rewrite lookup_delete_eq. by intros [? ?].
  - by rewrite lookup_delete_ne.
Qed.

Lemma create_or_keep_names (collection_name name : str) (st st' : store) :
  create_or_keep collection_name st = Ok st' →
  name ≠ collection_name → is_Some (st' !! name) → is_Some (st !! name).
Proof.
  unfold create_or_keep, try_except, collections_create. intros E Hne.
  destruct (create_error collection_name) as [e|].
  - destruct (contains _ _); [by injection E as <- | done].
  - destruct (st !! collection_name).
    + destruct (contains _ _); [by injection E as <- | done].
    + injection E as <-. by rewrite lookup_insert_ne.
Qed.

(** What a successful rebuild returns: the number of objects submitted, and
    the store with these objects at the end of the collection. *)
Lemma index_website_content_inv (urls : list str) (collection_name : str)
    (st st' : store) (total_chunks : nat) :
  index_website_content urls collection_name st = Ok (total_chunks, st') →
  ∃ objs old,
    batch_objects (map fetch_url_content urls) = (objs, None) ∧
    total_chunks = length objs ∧
    st' !! collection_name = Some (old ++ objs) ∧
    ∀ name, name ≠ collection_name → is_Some (st' !! name) → is_Some (st !! name).
Proof.
  unfold index_website_content.
  destruct (create_or_keep collection_name
              (delete_existing collection_name st)) as [st2|] eqn:Ec;
    [| done].
  simpl.
  destruct (batch_objects (map fetch_url_content urls)) as [objs [e|]];
    [done |].
  intros [= <- <-]. exists objs, (default [] (st2 !! collection_name)).
  repeat split; [by rewrite lookup_insert_eq |].
  intros name Hne. rewrite lookup_insert_ne by done.
  intros H. eapply delete_existing_names, create_or_keep_names; done.
Qed.


(** C2 (as amended). Every object submitted to the batch belongs to a
    fetched page with content: its [url] is the URL of the page, its
    [page_title] the title of the cleaned page, and its [html_snippet] the
    first 1000 characters at most of the markup of the cleaned page, that
    is of the parsed page without its script, style, meta, link, nav,
    header and footer elements, as [str(soup)] writes it back. *)
Theorem html_snippet_of_cleaned_markup (fetched : list (str * str))
    (obj : object) :
  obj ∈ (batch_objects fetched).1 →
  ∃ url html doc snippet,
    (url, html) ∈ fetched ∧ html ≠ [] ∧ clean_html html = Ok doc ∧
    properties obj !! "html_snippet"%string = Some snippet ∧
    snippet = take 1000 (soup_str doc) ∧
    length snippet ≤ 1000 ∧
    properties obj !! "url"%string = Some url ∧
    properties obj !! "page_title"%string = Some (page_title_of doc).
Proof.
  intros (u & h & Hin & Hne & d & cs & c & e & Hd & _ & _ & _ & _ & ->)
    %batch_objects_sound.
  exists u, h, d, (take 1000 (soup_str d)).
  repeat split; try done; try apply new_object_properties.
  rewrite length_take. lia.
Qed.

(** ** Link discovery *)

Lemma skipped_false (u : str) :
  skipped u = false ↔ ∀ skip, skip ∈ skips → contains skip (lower u) = false.
Proof.
  unfold skipped. split.
  - intros H skip Hin. destruct (contains skip (lower u)) eqn:E; [| done].
    assert (existsb (λ skip, contains skip (lower u)) skips = true) as H'.
    { apply existsb_exists. exists skip. by rewrite <- list_elem_of_In. }
    congruence.
  - intros H. destruct (existsb _ skips) eqn:E; [| done].
    apply existsb_exists in E as (skip & Hin & Hc).
    apply list_elem_of_In in Hin. rewrite (H skip Hin) in Hc. done.
Qed.

(** The test does not depend on the case of the URL: no part of a URL that
    passes it is, once lowered, one of the barred substrings. *)
Lemma skipped_false_any_case (u v : str) :
  skipped u = false → contains v u = true → lower v ∉ skips.
Proof.
  intros Hu Hv Hin. apply contains_lower in Hv.
  rewrite (proj1 (skipped_false u) Hu _ Hin) in Hv. done.
Qed.

Lemma candidate_none (base_url href : str) :
  candidate base_url href = None ↔ is_candidate base_url href = false.
Proof.
  forget_unused.
  unfold candidate, is_candidate.
  destruct (startswith (lit "/") href), (startswith base_url href); naive_solver.
Qed.

Lemma candidate_ok (base_url href u : str) :
  candidate base_url href = Some (Ok u) ↔ prefix_link base_url href u.
Proof.
  unfold candidate, prefix_link.
  destruct (startswith (lit "/") href).
  - split; [intros [= ->]; by left | by intros [[_ ->] | [? _]]].
  - destruct (startswith base_url href).
    + split; [intros [= ->]; by right | by intros [[? _] | (_ & _ & ->)]].
    + split; [done | by intros [[? _] | (_ & ? & _)]].
Qed.

(** An [href] that begins with two slashes begins with one: whatever host
    it names, the loop joins it to the seed and goes on with the result. *)
Example protocol_relative_is_candidate (base_url : str) :
  candidate base_url (lit "//cdn.other.org/lib/")
  = Some (urljoin base_url (lit "//cdn.other.org/lib/")).
Proof. reflexivity. Qed.

(** One turn of the loop. *)
Lemma collect_links_cons (base_url : str) (max_pages : Z) (href : str)
    (rest : list str) (links : gset str) :
  collect_links base_url max_pages (href :: rest) links
  = match candidate base_url href with
    | None => collect_links base_url max_pages rest links
    | Some (Raise e) => Raise e
    | Some (Ok full_url) =>
        let links' := if negb (skipped full_url) then {[full_url]} ∪ links
                      else links in
        if (max_pages <=? Z.of_nat (size links'))%Z then Ok links'
        else collect_links base_url max_pages rest links'
    end.
Proof.
  unfold candidate. cbn [collect_links].
  destruct (startswith (lit "/") href); [| by destruct (startswith base_url href)].
  by destruct (urljoin base_url href).
Qed.

Lemma size_add_link (u : str) (links : gset str) :
  size links ≤ size ({[u]} ∪ links) ≤ S (size links).
Proof.
  forget_unused.
  split; [apply subseteq_size; set_solver |].
  rewrite size_union_alt, size_singleton.
  assert (size (links ∖ {[u]}) ≤ size links); [| lia].
  apply subseteq_size. set_solver.
Qed.

Lemma collect_links_grows (base_url : str) (max_pages : Z)
    (hrefs : list str) (links res : gset str) :
  collect_links base_url max_pages hrefs links = Ok res → links ⊆ res.
Proof.
  forget_unused.
  revert links; induction hrefs as [|href rest IH]; intros links.
  - by intros [= <-].
  - rewrite collect_links_cons.
    destruct (candidate base_url href) as [[u | e] |]; [| done | apply IH].
    simpl. destruct (_ <=? _)%Z.
    + intros [= <-]. destruct (skipped u); set_solver.
    + intros H%IH. destruct (skipped u); set_solver.
Qed.

(** Below the cap at the start, at most at the cap at the end. *)
Lemma collect_links_bound (base_url : str) (max_pages : Z)
    (hrefs : list str) (links res : gset str) :
  collect_links base_url max_pages hrefs links = Ok res →
  (Z.of_nat (size links) < max_pages)%Z →
  (Z.of_nat (size res) ≤ max_pages)%Z.
Proof.
  revert links; induction hrefs as [|href rest IH]; intros links.
  - intros [= <-]. lia.
  - rewrite collect_links_cons.
    destruct (candidate base_url href) as [[u | e] |]; [| done | apply IH].
    simpl. set (links' := if negb (skipped u) then _ else _).
    assert (size links' ≤ S (size links)) as Hsize.
    { unfold links'. destruct (skipped u); simpl; [lia |].
      apply size_add_link. }
    destruct (Z.leb_spec max_pages (Z.of_nat (size links'))).
    + intros [= <-]. lia.
    + intros E _. by apply (IH links').
Qed.

(** Every link of the result was in the set at the start or comes from an
    [href] of the list that the loop accepts. *)
Lemma collect_links_sound (base_url : str) (max_pages : Z)
    (hrefs : list str) (links res : gset str) (u : str) :
  collect_links base_url max_pages hrefs links = Ok res → u ∈ res →
  u ∈ links ∨
  ∃ href, href ∈ hrefs ∧ prefix_link base_url href u ∧ skipped u = false.
Proof.
  revert links; induction hrefs as [|href rest IH]; intros links.
  - intros [= <-]. by left.
  - assert (∀ links', collect_links base_url max_pages rest links' = Ok res →
              u ∈ res → u ∈ links' ∨
              ∃ h, h ∈ href :: rest ∧ prefix_link base_url h u ∧
                   skipped u = false) as IH'.
    { intros links' E Hu. destruct (IH links' E Hu) as [? | (h & ? & ?)];
        [by left | right]. exists h. split; [by right | done]. }
    rewrite collect_links_cons.
    destruct (candidate base_url href) as [[v | e] |] eqn:Ec;
      [| done | apply IH'].
    apply candidate_ok in Ec. simpl.
    assert (u ∈ (if negb (skipped v) then {[v]} ∪ links else links) →
            u ∈ links ∨
            ∃ h, h ∈ href :: rest ∧ prefix_link base_url h u ∧
                 skipped u = false) as Hstep.
    { destruct (skipped v) eqn:Es; simpl; [by left |].
      intros [->%elem_of_singleton | ?]%elem_of_union; [right | by left].
      exists href. split; [left | done]. }
    destruct (_ <=? _)%Z.
    + intros [= <-]. exact Hstep.
    + intros E Hu. destruct (IH' _ E Hu) as [? | ?]; [auto | by right].
Qed.

(** When the cap leaves room for every [href] the loop considers, and
    [urljoin] raises on none, the result is the set at the start with all
    the links the loop accepts. *)
Lemma collect_links_uncapped (base_url : str) (max_pages : Z)
    (hrefs : list str) (links : gset str) :
  (∀ href, href ∈ hrefs → ∀ e, candidate base_url href ≠ Some (Raise e)) →
  (Z.of_nat (size links
             + length (filter (λ h, is_candidate base_url h = true) hrefs))
   ≤ max_pages)%Z →
  ∃ res,
    collect_links base_url max_pages hrefs links = Ok res ∧
    ∀ u, u ∈ res ↔
         u ∈ links ∨
         ∃ href, href ∈ hrefs ∧ prefix_link base_url href u ∧
                 skipped u = false.
Proof.
  forget_unused.
  revert links; induction hrefs as [|href rest IH]; intros links Hjoin Hcap.
  - exists links. split; [done |]. intros u. split; [by left |].
    intros [? | (h & []%elem_of_nil & _)]. done.
  - rewrite collect_links_cons.
    assert (∀ h, h ∈ rest → ∀ e, candidate base_url h ≠ Some (Raise e))
      as Hjoin' by (intros h Hh; apply Hjoin; by right).
    destruct (candidate base_url href) as [[v | e] |] eqn:Ec.
    + assert (is_candidate base_url href = true) as Hc.
      { destruct (is_candidate base_url href) eqn:E; [done |].
        apply candidate_none in E. congruence. }
      rewrite filter_cons_True in Hcap by done. simpl in Hcap.
      apply candidate_ok in Ec. simpl.
      set (links' := if negb (skipped v) then {[v]} ∪ links else links).
      assert (size links' ≤ S (size links)) as Hsize.
      { unfold links'. destruct (skipped v); simpl; [lia |].
        apply size_add_link. }
      assert (∀ u, u ∈ links' ↔ u ∈ links ∨ (u = v ∧ skipped v = false))
        as Hlinks'.
      { intros u. unfold links'. destruct (skipped v); simpl; set_solver. }
      destruct (Z.leb_spec max_pages (Z.of_nat (size links'))) as [Hfull | Hroom].
      * exists links'. split; [done |]. intros u. rewrite Hlinks'. split.
        -- intros [? | [-> ?]]; [by left | right].
           exists href. split; [left | done].
        -- intros [? | (h & [-> | Hh]%elem_of_cons & Hso & Hsk)]; [by left | |].
           ++ right. apply candidate_ok in Ec, Hso.
              rewrite Ec in Hso. injection Hso as ->. done.
           ++ exfalso.
              assert (filter (λ h, is_candidate base_url h = true) rest = [])
                as Hnone by (apply length_zero_iff_nil; lia).
              apply candidate_ok in Hso.
              eapply (filter_nil_not_elem_of _ _ h Hnone); [| done].
              destruct (is_candidate base_url h) eqn:E; [done |].
              apply candidate_none in E. congruence.
      * destruct (IH links' Hjoin' ltac:(lia)) as (res & Eres & Hres).
        exists res. split; [done |]. intros u.
        rewrite Hres, Hlinks'. split.
        -- intros [[? | [-> ?]] | (h & ? & ?)]; [by left | right | right].
           ++ exists href. split; [left | done].
           ++ exists h. split; [by right | done].
        -- intros [? | (h & [-> | Hh]%elem_of_cons & Hso & Hsk)].
           ++ by left; left.
           ++ left; right. apply candidate_ok in Ec, Hso.
              rewrite Ec in Hso. injection Hso as ->. done.
           ++ right. by exists h.
    + by destruct (Hjoin href ltac:(left) e).
    + assert (is_candidate base_url href = false) as Hc
        by by apply candidate_none.
      rewrite filter_cons_False in Hcap by congruence.
      destruct (IH links Hjoin' Hcap) as (res & Eres & Hres).
      exists res. split; [done |]. intros u. rewrite Hres. split.
      * intros [? | (h & ? & ?)]; [by left | right].
        exists h. split; [by right | done].
      * intros [? | (h & [-> | Hh]%elem_of_cons & Hso & Hsk)]; [by left | |].
        -- apply candidate_ok in Hso. congruence.
        -- right. by exists h.
Qed.

Lemma fetch_url_content_url (url : str) : (fetch_url_content url).1 = url.
Proof.
  unfold fetch_url_content. destruct (http_get url) as [[status body] | e];
    [| done].
  by destruct (status =? 200)%Z.
Qed.

Lemma try_links_inv (base_url : str) (max_pages : Z) (res : gset str) :
  try_links base_url max_pages = Ok res →
  ((fetch_url_content base_url).2 = [] ∧ res = {[base_url]}) ∨
  ∃ doc,
    (fetch_url_content base_url).2 ≠ [] ∧
    html_parser (fetch_url_content base_url).2 = Ok doc ∧
    collect_links base_url max_pages (anchor_hrefs doc) {[base_url]} = Ok res.
Proof.
  unfold try_links. destruct (fetch_url_content base_url) as [u content].
  simpl. destruct content as [|c content].
  - intros [= <-]. by left.
  - destruct (html_parser (c :: content)) as [doc|]; [| done]. simpl.
    intros E. right. by exists doc.
Qed.

Lemma try_links_empty_content (base_url : str) (max_pages : Z) :
  (fetch_url_content base_url).2 = [] →
  try_links base_url max_pages = Ok {[base_url]}.
Proof.
  unfold try_links. destruct (fetch_url_content base_url) as [u content].
  simpl. by intros ->.
Qed.

Lemma try_links_parsed (base_url : str) (max_pages : Z) (doc : soup) :
  (fetch_url_content base_url).2 ≠ [] →
  html_parser (fetch_url_content base_url).2 = Ok doc →
  try_links base_url max_pages
  = collect_links base_url max_pages (anchor_hrefs doc) {[base_url]}.
Proof.
  unfold try_links. destruct (fetch_url_content base_url) as [u content].
  simpl. destruct content; [done |]. by intros _ ->.
Qed.

(** C4 (as amended). The seed URL is always in the result; with
    [max_pages] at least 2 the result has at most [max_pages] URLs; and
    when the seed page comes back empty, or the parser or anything else in
    the [try] block raises, the result is the seed alone. *)
Theorem get_website_links_seed_and_bound (base_url : str) (max_pages : Z) :
  base_url ∈ get_website_links base_url max_pages ∧
  ((2 ≤ max_pages)%Z →
   (Z.of_nat (size (get_website_links base_url max_pages)) ≤ max_pages)%Z) ∧
  ((fetch_url_content base_url).2 = [] →
   get_website_links base_url max_pages = {[base_url]}) ∧
  (∀ e, html_parser (fetch_url_content base_url).2 = Raise e →
        get_website_links base_url max_pages = {[base_url]}) ∧
  (∀ e, try_links base_url max_pages = Raise e →
        get_website_links base_url max_pages = {[base_url]}).
Proof.
  forget_unused.
  unfold get_website_links. repeat split.
  - destruct (try_links base_url max_pages) as [res|] eqn:E;
      [| by apply elem_of_singleton].
    apply try_links_inv in E as [[_ ->] | (doc & _ & _ & E)];
      [by apply elem_of_singleton |].
    apply collect_links_grows in E. set_solver.
  - intros Hmax. destruct (try_links base_url max_pages) as [res|] eqn:E;
      [| rewrite size_singleton; lia].
    apply try_links_inv in E as [[_ ->] | (doc & _ & _ & E)];
      [rewrite size_singleton; lia |].
    eapply collect_links_bound; [exact E |]. rewrite size_singleton. lia.
  - intros Hempty. by rewrite try_links_empty_content.
  - intros e He. destruct (fetch_url_content base_url).2 eqn:Ec.
    + by rewrite try_links_empty_content.
    + unfold try_links. destruct (fetch_url_content base_url) as [u content].
      simpl in *. subst content. by rewrite He.
  - by intros e ->.
Qed.

(** The rule of admission of the loop.  A URL of the result other than the
    seed comes from an anchor of the seed page whose [href] begins with
    [/], joined to the seed, or begins with the text of the seed URL; and
    no part of it is, in any case of letters, one of the barred
    substrings.  For a seed page with three anchors, two of them with an
    [href] of one of these two forms and not barred, and one foreign,
    whose [href] begins with neither [/] nor the text of the seed URL, and
    a cap of 3 or more, the result is the seed and the two links. *)
Theorem link_admission_rule (base_url : str) (max_pages : Z) :
  (∀ u, u ∈ get_website_links base_url max_pages → u ≠ base_url →
     ∃ doc href,
       html_parser (fetch_url_content base_url).2 = Ok doc ∧
       href ∈ anchor_hrefs doc ∧
       prefix_link base_url href u ∧
       (∀ skip, skip ∈ skips → contains skip (lower u) = false) ∧
       (∀ part, contains part u = true → lower part ∉ skips)) ∧
  (∀ doc a b c ua ub,
     (fetch_url_content base_url).2 ≠ [] →
     html_parser (fetch_url_content base_url).2 = Ok doc →
     anchor_hrefs doc ≡ₚ [a; b; c] →
     prefix_link base_url a ua → skipped ua = false →
     prefix_link base_url b ub → skipped ub = false →
     foreign_href base_url c →
     (3 ≤ max_pages)%Z →
     get_website_links base_url max_pages = {[base_url; ua; ub]}).
Proof.
  forget_unused.
  split.
  - intros u. unfold get_website_links.
    destruct (try_links base_url max_pages) as [res|] eqn:E;
      [| by intros ->%elem_of_singleton].
    apply try_links_inv in E as [[_ ->] | (doc & _ & Hdoc & E)];
      [by intros ->%elem_of_singleton |].
    intros Hu Hne.
    destruct (collect_links_sound _ _ _ _ _ _ E Hu)
      as [->%elem_of_singleton | (href & Hin & Hso & Hsk)]; [done |].
    exists doc, href. repeat split; try done.
    + by apply skipped_false.
    + intros part. by apply skipped_false_any_case.
  - intros doc a b c ua ub Hcontent Hdoc Hperm Ha Hska Hb Hskb [Hc1 Hc2] Hmax.
    unfold get_website_links. rewrite (try_links_parsed _ _ doc) by done.
    assert (∀ h, h ∈ anchor_hrefs doc ↔ h = a ∨ h = b ∨ h = c) as Hmem.
    { intros h. rewrite Hperm. set_solver. }
    assert (candidate base_url c = None) as Hc.
    { unfold candidate. by rewrite Hc1, Hc2. }
    destruct (collect_links_uncapped base_url max_pages (anchor_hrefs doc)
                {[base_url]}) as (res & -> & Hres).
    + intros h [-> | [-> | ->]]%Hmem e.
      * apply candidate_ok in Ha. congruence.
      * apply candidate_ok in Hb. congruence.
      * congruence.
    + rewrite size_singleton, Hperm.
      assert (is_candidate base_url c = false) as Hc' by by apply candidate_none.
      rewrite !filter_cons, filter_nil, Hc'. simpl.
      repeat case_decide; simpl; try done; lia.
    + apply set_eq. intros u. rewrite Hres. split.
      * intros [->%elem_of_singleton | (h & [-> | [-> | ->]]%Hmem & Hso & _)].
        -- set_solver.
        -- apply candidate_ok in Ha, Hso. rewrite Ha in Hso.
           injection Hso as ->. set_solver.
        -- apply candidate_ok in Hb, Hso. rewrite Hb in Hso.
           injection Hso as ->. set_solver.
        -- apply candidate_ok in Hso. congruence.
      * intros [[->%elem_of_singleton | ->%elem_of_singleton]%elem_of_union
               | ->%elem_of_singleton]%elem_of_union.
        -- left. by apply elem_of_singleton.
        -- right. exists a. split; [apply Hmem; auto | done].
        -- right. exists b. split; [apply Hmem; auto | done].
Qed.

(** ** The sweep *)

Lemma collection_name_prefix (base_url name : str) :
  get_collection_name base_url = Ok name →
  startswith (lit "Website_") name = true.
Proof.
  intros [domain ->]%get_collection_name_inv. apply prefixed_name_shape.
Qed.

(** The loop of the sweep does not get past the first listed collection:
    reading its name raises, before the prefix is tested and before
    anything is deleted. *)
Lemma sweep_first_collection (collection : str) (rest : list str)
    (deleted_count : nat) (st : store) :
  sweep (collection :: rest) deleted_count st = Raise attribute_error.
Proof. done. Qed.

Lemma collections_list_all_nil (st : store) :
  collections_list_all st = Ok [] → st = ∅.
Proof.
  unfold collections_list_all. destruct list_all_error; [done |].
  intros [= E]. apply elements_empty_inv in E.
  apply dom_empty_inv_L. by apply leibniz_equiv.
Qed.

(** A search leaves the collections it found, except the one of its site. *)
Lemma search_website_inv (data : SearchRequest) (st st' : store)
    (response : SearchResponse) :
  search_website data st = Ok (response, st') →
  ∃ site collection_name,
    get_collection_name site = Ok collection_name ∧
    is_Some (st' !! collection_name) ∧
    ∀ name, name ≠ collection_name →
            is_Some (st' !! name) → is_Some (st !! name).
Proof.
  unfold search_website, try_except.
  destruct (bool_decide (website data = []) || bool_decide (query data = []));
    [done |].
  set (site := if _ : bool then website data else _).
  destruct (get_collection_name site) as [name|] eqn:En; [| done]. simpl.
  destruct (index_website_content _ name st) as [[n st1]|] eqn:Ei; [| done].
  simpl. destruct (search_content _ _ _ _) as [res|]; [| done]. simpl.
  intros [= <- <-]. exists site, name.
  apply index_website_content_inv in Ei as (objs & old & _ & _ & Hn & Hother).
  split; [done |]. split; [by rewrite Hn | done].
Qed.

(** C10 (the code differs). Every derived collection name begins with
    [Website_], as the claim says.  The sweep, though, deletes none of
    them: [list_all()] gives a dictionary keyed by name, the loop runs
    over its keys, and [collection.name] on the first key raises an
    [AttributeError], which the handler of the endpoint turns into status
    500.  So on a store that holds a collection, whatever its name, the
    sweep answers 500 with that message, and only on a store without
    collections does it answer with a count, which is 0. *)
Theorem sweep_stops_at_first_collection :
  (∀ base_url name,
     get_collection_name base_url = Ok name →
     startswith (lit "Website_") name = true) ∧
  (∀ st name objs,
     list_all_error = None →
     st !! name = Some objs →
     clear_all_collections st
     = Raise (HTTPException 500 (lit "'str' object has no attribute 'name'"))) ∧
  (list_all_error = None → clear_all_collections ∅ = Ok (0, ∅)).
Proof.
  split; [exact collection_name_prefix |]. split.
  - intros st name objs Hlist Hname.
    destruct (collections_list_all st) as [collections|] eqn:E.
    + destruct collections as [|collection rest].
      * apply collections_list_all_nil in E. subst st.
        by rewrite lookup_empty in Hname.
      * unfold clear_all_collections. rewrite E. cbn [mbind exc_bind].
        by rewrite sweep_first_collection.
    + unfold collections_list_all in E. by rewrite Hlist in E.
  - intros Hlist. unfold clear_all_collections, collections_list_all.
    rewrite Hlist, dom_empty_L, elements_empty. done.
Qed.

(** ** More on the cleaning of a page *)

Lemma node_nested_ind (P : node → Prop) :
  (∀ s, P (Text s)) →
  (∀ kind s, P (Special kind s)) →
  (∀ name attrs children,
     Forall P children → P (Element name attrs children)) →
  ∀ n, P n.
Proof.
  intros Htext Hspecial Helement. fix IH 1.
  intros [s | kind s | name attrs children].
  - apply Htext.
  - apply Hspecial.
  - apply Helement. induction children as [|c children IHc].
    + apply Forall_nil_2.
    + apply Forall_cons_2; [apply IH | apply IHc].
Qed.

Lemma in_concat_map {A B} (f : A → list B) (l : list A) (y : B) :
  In y (concat (map f l)) ↔ ∃ x, In x l ∧ In y (f x).
Proof.
  rewrite in_concat. split.
  - intros (ys & (x & <- & Hx)%in_map_iff & Hy). eauto.
  - intros (x & Hx & Hy). exists (f x). split; [by apply in_map | done].
Qed.

Lemma decompose_leaves_none (names : list str) (n m : node) :
  In m (concat (map descendants (decompose names n))) →
  is_element names m = false.
Proof.
  revert m.
  induction n as [s | kind s | name attrs children IH] using node_nested_ind;
    intros m; cbn [decompose].
  - simpl. intros [<- | []]. done.
  - simpl. intros [<- | []]. done.
  - destruct (bool_decide (name ∈ names)) eqn:Hname; [by intros [] |].
    cbn [map concat descendants]. rewrite app_nil_r.
    intros [<- | Hm]; [exact Hname |].
    apply in_concat_map in Hm as (d & Hd & Hm).
    apply in_concat_map in Hd as (c & Hc & Hd).
    rewrite Forall_forall in IH. apply (IH c); [by apply list_elem_of_In |].
    apply in_concat_map. eauto.
Qed.

Lemma decompose_keeps_text (names : list str) (n : node) (s : str) :
  In (Text s) (concat (map descendants (decompose names n))) →
  In (Text s) (descendants n).
Proof.
  forget_unused.
  induction n as [t | kind t | name attrs children IH] using node_nested_ind;
    cbn [decompose].
  - simpl. tauto.
  - simpl. tauto.
  - destruct (bool_decide (name ∈ names)); [by intros [] |].
    cbn [map concat descendants]. rewrite app_nil_r.
    intros [[=] | Hm]. right.
    apply in_concat_map in Hm as (d & Hd & Hm).
    apply in_concat_map in Hd as (c & Hc & Hd).
    apply in_concat_map. exists c. split; [done |].
    rewrite Forall_forall in IH. apply IH; [by apply list_elem_of_In |].
    apply in_concat_map. eauto.
Qed.

Lemma decompose_nothing (names : list str) (n : node) :
  (∀ m, In m (descendants n) → is_element names m = false) →
  decompose names n = [n].
Proof.
  induction n as [t | kind t | name attrs children IH] using node_nested_ind;
    intros Hnone; cbn [decompose]; [done | done |].
  pose proof (Hnone _ (or_introl eq_refl)) as Hself. simpl in Hself.
  rewrite Hself. do 2 f_equal.
  assert (∀ c m, In c children → In m (descendants c) →
                 is_element names m = false) as Hsub.
  { intros c m Hc Hm. apply Hnone. right. apply in_concat_map. eauto. }
  clear Hnone Hself. induction children as [|c children IHc]; [done |].
  apply Forall_cons in IH as [Hc IH]. cbn [map concat].
  rewrite Hc by (intros m; apply Hsub; by left). simpl. f_equal.
  apply IHc; [done |]. intros c' m Hc'. apply Hsub. by right.
Qed.

(** X1. After [clean_html] no script, style, meta, link, nav, header or
    footer element is left anywhere in the tree, and every text node of the
    cleaned tree is a text node of the parsed page: cleaning adds no
    text. *)
Theorem clean_html_removes_tags (html : str) (doc : soup) :
  clean_html html = Ok doc →
  (∀ n, n ∈ nodes doc → is_element removed_tags n = false) ∧
  ∃ parsed,
    html_parser html = Ok parsed ∧
    ∀ s, Text s ∈ nodes doc → Text s ∈ nodes parsed.
Proof.
  unfold clean_html. destruct (html_parser html) as [parsed|]; [| done].
  intros [= <-]. split.
  - intros n Hn%list_elem_of_In. unfold nodes in Hn.
    apply in_concat_map in Hn as (d & Hd & Hn).
    apply in_concat_map in Hd as (c & Hc & Hd).
    apply (decompose_leaves_none removed_tags c). apply in_concat_map. eauto.
  - exists parsed. split; [done |]. intros s Hs%list_elem_of_In.
    apply list_elem_of_In. unfold nodes in *.
    apply in_concat_map in Hs as (d & Hd & Hs).
    apply in_concat_map in Hd as (c & Hc & Hd).
    apply in_concat_map. exists c. split; [done |].
    apply (decompose_keeps_text removed_tags). apply in_concat_map. eauto.
Qed.

(** X2. A page without any of these elements comes out of [clean_html] as
    the parser built it. *)
Theorem clean_html_keeps_clean_page (html : str) (parsed : soup) :
  html_parser html = Ok parsed →
  (∀ n, n ∈ nodes parsed → is_element removed_tags n = false) →
  clean_html html = Ok parsed.
Proof.
  intros Hp Hnone. unfold clean_html. rewrite Hp. simpl. f_equal.
  assert (∀ c m, In c parsed → In m (descendants c) →
                 is_element removed_tags m = false) as Hsub.
  { intros c m Hc Hm. apply Hnone, list_elem_of_In, in_concat_map. eauto. }
  clear Hp Hnone. induction parsed as [|c parsed IH]; [done |].
  cbn [map concat]. rewrite decompose_nothing by (intros m; apply Hsub; by left).
  simpl. f_equal. apply IH. intros c' m Hc'. apply Hsub. by right.
Qed.

(** ** More on chunking *)

Lemma map_fmap {A B} (f : A → B) (l : list A) : map f l = f <$> l.
Proof. induction l; [done | simpl; by f_equal]. Qed.

Lemma word_groups_lookup {A} (k : nat) (l : list A) (i : nat) (g : list A) :
  word_groups k l !! i = Some g →
  i < (length l + k - 1) / k ∧ g = take k (drop (i * k) l).
Proof.
  unfold word_groups. rewrite map_fmap, list_lookup_fmap.
  destruct (seq 0 ((length l + k - 1) / k) !! i) as [j|] eqn:Ej; [| done].
  apply lookup_seq in Ej as [-> Hi]. simpl. by intros [= <-].
Qed.

Lemma word_groups_length {A} (k : nat) (l : list A) :
  length (word_groups k l) = (length l + k - 1) / k.
Proof. unfold word_groups. by rewrite length_map, length_seq. Qed.

(** X3. With a positive [max_tokens] there are as many chunks as groups of
    [max_tokens] words, rounded up, and the words of the chunk at position
    [i] are the words of the text from position [i * max_tokens] on, up to
    [max_tokens] of them: between 1 and [max_tokens] words, and exactly
    [max_tokens] in every chunk but the last. *)
Theorem chunk_text_positions (text : str) (max_tokens : Z) :
  (0 < max_tokens)%Z →
  ∃ chunks,
    chunk_text text max_tokens = Ok chunks ∧
    length chunks
    = (length (split text) + Z.to_nat max_tokens - 1) / Z.to_nat max_tokens ∧
    ∀ i chunk,
      chunks !! i = Some chunk →
      split chunk
      = take (Z.to_nat max_tokens)
          (drop (i * Z.to_nat max_tokens) (split text)) ∧
      1 ≤ length (split chunk) ≤ Z.to_nat max_tokens ∧
      (i + 1 < length chunks → length (split chunk) = Z.to_nat max_tokens).
Proof.
  intros Hpos. eexists. split; [by apply chunk_text_groups |].
  set (k := Z.to_nat max_tokens). assert (0 < k) as Hk by lia.
  set (words := split text).
  rewrite length_map, word_groups_length. split; [done |].
  intros i chunk. rewrite map_fmap, list_lookup_fmap.
  destruct (word_groups k words !! i) as [g|] eqn:Eg; [| done].
  intros [= <-]. apply word_groups_lookup in Eg as [Hi ->].
  pose proof (groups_of_words k words Hk (split_words text)) as Hg.
  assert (Forall is_word (take k (drop (i * k) words))) as Hw
    by apply Forall_take, Forall_drop, split_words.
  rewrite split_join by done. split; [done |].
  rewrite length_take, length_drop.
  pose proof (group_start_inside (length words) k i Hk Hi).
  split; [lia |]. intros Hnext.
  pose proof (Nat.div_mod (length words + k - 1) k ltac:(lia)).
  pose proof (Nat.mod_upper_bound (length words + k - 1) k ltac:(lia)).
  nia.
Qed.

Lemma split_from_nil (cur s : str) :
  split_from cur s = [] ↔ cur = [] ∧ Forall (λ c, isspace c = true) s.
Proof.
  forget_unused.
  revert cur; induction s as [|c s IH]; intros cur; simpl.
  - destruct cur.
    + split; [intros _; split; [done | apply Forall_nil_2] | done].
    + split; [done | by intros [? _]].
  - destruct (isspace c) eqn:Hc.
    + destruct cur.
      * rewrite IH. split; intros [? H]; (split; [done |]).
        -- by apply Forall_cons_2.
        -- by apply Forall_cons in H as [_ ?].
      * split; [done | by intros [? _]].
    + rewrite IH. split.
      * intros [?%app_eq_nil _]. naive_solver.
      * intros [_ [? _]%Forall_cons]. congruence.
Qed.

(** X4. With a positive [max_tokens], [chunk_text] returns no chunk exactly
    for the texts that are empty or all whitespace. *)
Theorem chunk_text_blank (text : str) (max_tokens : Z) :
  (0 < max_tokens)%Z →
  chunk_text text max_tokens = Ok [] ↔ Forall (λ c, isspace c = true) text.
Proof.
  forget_unused.
  intros Hpos. rewrite chunk_text_groups by done.
  set (k := Z.to_nat max_tokens). assert (0 < k) as Hk by lia.
  assert (split text = [] ↔ Forall (λ c, isspace c = true) text) as <-.
  { unfold split. rewrite split_from_nil. naive_solver. }
  split.
  - intros [= E]. apply map_eq_nil in E.
    rewrite <- (concat_groups k (split text) Hk). by rewrite E.
  - intros ->. unfold word_groups. simpl.
    by rewrite (Nat.div_small (k - 1) k) by lia.
Qed.

(** X5. Without a positive [max_tokens] no text is chunked: a step of 0
    makes [range] raise, whatever the text, and a negative step gives no
    chunk, whatever the text. *)
Theorem chunk_text_without_positive_step (text : str) (max_tokens : Z) :
  (max_tokens ≤ 0)%Z →
  chunk_text text max_tokens
  = if (max_tokens =? 0)%Z
    then Raise (Error (lit "range() arg 3 must not be zero"))
    else Ok [].
Proof.
  intros Hle. unfold chunk_text, range_from_0.
  destruct (Z.eqb_spec max_tokens 0); [done |].
  destruct (Z.ltb_spec max_tokens 0); [done | lia].
Qed.

Lemma lstrip_head (c : ascii) (s : str) :
  isspace c = false → lstrip (c :: s) = c :: s.
Proof. intros H. simpl. by rewrite H. Qed.

Lemma strip_between_letters (c d : ascii) (s : str) :
  isspace c = false → isspace d = false →
  strip (c :: s ++ [d]) = c :: s ++ [d].
Proof.
  intros Hc Hd. unfold strip, rstrip. rewrite lstrip_head by done.
  change (c :: s ++ [d]) with ((c :: s) ++ [d]).
  rewrite rev_app_distr. cbn [rev app]. rewrite lstrip_head by done.
  change (d :: rev s ++ [c]) with ([d] ++ rev (c :: s)).
  by rewrite rev_app_distr, rev_involutive.
Qed.

Lemma strip_letter (c : ascii) : isspace c = false → strip [c] = [c].
Proof. intros H. unfold strip, rstrip. simpl. rewrite H. simpl. by rewrite H. Qed.

Lemma join_words_ends (ws : list str) :
  ws ≠ [] → Forall is_word ws →
  ∃ c middle, (join (lit " ") ws = [c] ∨
               ∃ d, join (lit " ") ws = c :: middle ++ [d] ∧ isspace d = false)
              ∧ isspace c = false.
Proof.
  intros Hne Hws. induction Hws as [|w ws [Hw Hc] Hws IH]; [done |].
  destruct w as [|c w]; [done |]. apply Forall_cons in Hc as [Hc Hrest].
  destruct ws as [|w' ws].
  - destruct (decide (w = [])) as [-> | Hnew].
    + exists c, []. split; [by left | done].
    + destruct (exists_last Hnew) as (pre & d & ->).
      exists c, pre. split; [right; exists d | done].
      split; [done |]. apply Forall_app in Hrest as [_ Hd].
      by apply Forall_cons in Hd as [? _].
  - destruct (IH ltac:(done)) as (c' & middle & Hshape & Hc').
    change (join (lit " ") ((c :: w) :: w' :: ws))
      with (c :: w ++ " "%char :: join (lit " ") (w' :: ws)).
    destruct Hshape as [-> | (d & -> & Hd)].
    + exists c, (w ++ [" "%char]). split; [right; exists c' | done].
      split; [by rewrite <- app_assoc | done].
    + exists c, (w ++ " "%char :: c' :: middle).
      split; [right; exists d | done].
      split; [| done]. rewrite <- app_assoc. simpl. done.
Qed.

Lemma strip_join_id (ws : list str) :
  ws ≠ [] → Forall is_word ws →
  strip (join (lit " ") ws) = join (lit " ") ws.
Proof.
  intros Hne Hws.
  destruct (join_words_ends ws Hne Hws) as (c & middle & [-> | (d & -> & Hd)] & Hc).
  - by apply strip_letter.
  - by apply strip_between_letters.
Qed.

Lemma chunk_text_inv (text : str) (max_tokens : Z) (chunks : list str)
    (chunk : str) :
  chunk_text text max_tokens = Ok chunks → chunk ∈ chunks →
  (0 < max_tokens)%Z ∧
  ∃ g, chunk = join (lit " ") g ∧ g ≠ [] ∧ Forall is_word g ∧
       length g ≤ Z.to_nat max_tokens.
Proof.
  intros E Hin. destruct (Z.le_gt_cases max_tokens 0) as [Hle | Hpos].
  - revert E. unfold chunk_text, range_from_0.
    destruct (Z.eqb_spec max_tokens 0); [done |].
    destruct (Z.ltb_spec max_tokens 0); [| lia].
    intros [= <-]. by apply elem_of_nil in Hin.
  - split; [lia |]. rewrite chunk_text_groups in E by lia. injection E as <-.
    apply list_elem_of_In, in_map_iff in Hin as (g & <- & Hg).
    pose proof (groups_of_words (Z.to_nat max_tokens) (split text)
                  ltac:(lia) (split_words text)) as Hall.
    rewrite Forall_forall in Hall.
    destruct (Hall g ltac:(by apply list_elem_of_In)) as [Hne Hw].
    exists g. repeat split; try done.
    unfold word_groups in Hg. apply in_map_iff in Hg as (j & <- & _).
    rewrite length_take. lia.
Qed.

(** X6. A chunk has no whitespace at either end: trimming it changes
    nothing, so the tests [chunk.strip()] and [len(chunk.strip()) > 50]
    are tests on the chunk itself, and it is never empty. *)
Theorem chunk_is_trimmed (text : str) (max_tokens : Z) (chunks : list str)
    (chunk : str) :
  chunk_text text max_tokens = Ok chunks → chunk ∈ chunks →
  strip chunk = chunk ∧ chunk ≠ [].
Proof.
  intros E Hin.
  destruct (chunk_text_inv _ _ _ _ E Hin) as (_ & g & -> & Hne & Hw & _).
  rewrite strip_join_id by done. split; [done |].
  pose proof (strip_join_words g Hne Hw) as Hs.
  by rewrite strip_join_id in Hs.
Qed.

(** ** More on collection names *)

Lemma Ok_inj {A} (a b : A) : Ok a = Ok b → a = b.
Proof. by intros [= ->]. Qed.

(** X7. A derived collection name is made of ASCII letters, digits and
    underscores only, and has between 9 and 50 characters: something
    always follows the prefix. *)
Theorem collection_name_charset (base_url name : str) :
  get_collection_name base_url = Ok name →
  Forall (λ c, is_word_char c = true) name ∧ 9 ≤ length name ≤ 50.
Proof.
  intros E.
  assert (∃ domain,
            Forall (λ c, is_word_char c = true) domain ∧ domain ≠ [] ∧
            name = take 50 (lit "Website_" ++ domain))
    as (domain & Hdomain & Hne & ->).
  { revert E. unfold get_collection_name.
    destruct (urlparse_netloc base_url) as [netloc|]; [| done].
    set (domain := filter (λ c, is_word_char c = true)
                     (replace "-" "_" (replace "." "_" netloc))).
    assert (Forall (λ c, is_word_char c = true) domain) as Hdomain.
    { apply Forall_forall. intros c Hc.
      by apply list_elem_of_filter in Hc as [? _]. }
    assert (Forall (λ c, is_word_char c = true) (lit "website_")) as Hlower
      by (repeat apply Forall_cons_2; done || apply Forall_nil_2).
    intros E.
    exists (match domain with
            | [] => lit "website_" ++ domain
            | c :: _ =>
                if negb (isalpha c) then lit "website_" ++ domain else domain
            end).
    split; [| split; [| by apply Ok_inj in E as <-]].
    - destruct domain as [|c domain]; [by apply Forall_app |].
      destruct (isalpha c); [done | by apply Forall_app].
    - destruct domain as [|c domain]; [done |]. by destruct (isalpha c). }
  assert (Forall (λ c, is_word_char c = true) (lit "Website_")) as Hupper
    by (repeat apply Forall_cons_2; done || apply Forall_nil_2).
  split; [by apply Forall_take, Forall_app |].
  rewrite length_take, length_app. change (length (lit "Website_")) with 8.
  destruct domain; [done |]. cbn [length]. lia.
Qed.

(** X8. Dots and hyphens of the host are both turned into underscores, so
    two sites whose hosts differ in a dot against a hyphen share one
    collection name. *)
Theorem collection_name_dot_hyphen (url1 url2 before after : str) :
  urlparse_netloc url1 = Ok (before ++ "."%char :: after) →
  urlparse_netloc url2 = Ok (before ++ "-"%char :: after) →
  get_collection_name url1 = get_collection_name url2.
Proof.
  intros E1 E2. unfold get_collection_name. rewrite E1, E2. simpl.
  unfold replace. by rewrite !map_app.
Qed.

(** ** More on the query *)

Lemma search_result_succeeds_iff (obj : hit) :
  (∃ result, search_result obj = Ok result) ↔
  is_Some (hit_properties obj !! "url"%string) ∧
  is_Some (hit_properties obj !! "content"%string).
Proof.
  unfold search_result.
  destruct (hit_properties obj !! "url"%string) as [u|]; simpl.
  - destruct (hit_properties obj !! "content"%string) as [c|]; simpl.
    + split; [intros _; split; by eexists | intros _; by eexists].
    + split; [by intros [? ?] | by intros [_ [? ?]]].
  - split; [by intros [? ?] | by intros [[? ?] _]].
Qed.

Lemma search_results_succeed_iff (hits : list hit) :
  (∃ res, search_results hits = Ok res) ↔
  Forall (λ obj, is_Some (hit_properties obj !! "url"%string) ∧
                 is_Some (hit_properties obj !! "content"%string)) hits.
Proof.
  induction hits as [|obj hits IH]; simpl.
  - split; [intros _; apply Forall_nil_2 | intros _; by eexists].
  - rewrite Forall_cons, <- IH, <- search_result_succeeds_iff.
    destruct (search_result obj) as [r|]; simpl.
    + destruct (search_results hits) as [rs|]; simpl.
      * split; [intros _; split; by eexists | intros _; by eexists].
      * split; [by intros [? ?] | by intros [_ [? ?]]].
    + split; [by intros [? ?] | by intros [[? ?] _]].
Qed.

(** X9. A query returns all its hits or none: with the query embedded and
    the hits delivered, it succeeds exactly when every hit has a [url] and
    a [content]; it then returns one result per hit, in the order of the
    hits, each with the [url] of its hit. *)
Theorem search_content_all_or_nothing (query collection_name : str)
    (top_k : Z) (st : store) (query_embedding : list float)
    (hits : list hit) :
  encode query = Ok query_embedding →
  near_vector (st !! collection_name) query_embedding top_k = Ok hits →
  ((∃ res, search_content query collection_name top_k st = Ok res) ↔
   Forall (λ obj, is_Some (hit_properties obj !! "url"%string) ∧
                  is_Some (hit_properties obj !! "content"%string)) hits) ∧
  (∀ res, search_content query collection_name top_k st = Ok res →
          Forall2 (λ obj result,
                     hit_properties obj !! "url"%string = Some (url result))
                  hits res).
Proof.
  intros Ee En. unfold search_content, try_except. rewrite Ee. simpl.
  rewrite En. simpl. clear Ee En. split.
  - rewrite <- search_results_succeed_iff.
    destruct (search_results hits); split; intros [res ?]; try done;
      by eexists.
  - intros res. destruct (search_results hits) as [rs|] eqn:E; [| done].
    intros [= <-]. apply search_results_each in E.
    eapply Forall2_impl; [exact E |].
    by intros obj r (u & c & Hu & _ & ->)%search_result_inv.
Qed.

(** ** More on fetching and on the rebuild of the index *)

Lemma fetch_url_content_body (url body : str) :
  body ≠ [] →
  (fetch_url_content url).2 = body ↔ http_get url = Ok (200%Z, body).
Proof.
  intros Hne. unfold fetch_url_content.
  destruct (http_get url) as [[status b] | e]; simpl.
  - destruct (Z.eqb_spec status 200) as [-> | Hs]; simpl.
    + split; [by intros -> | by intros [= ->]].
    + split; [by intros <- | intros [= -> ->]; done].
  - split; [by intros <- | done].
Qed.

(** X10. [fetch_url_content] never raises and returns the URL it was
    given; it returns a non-empty content exactly when the server answers
    200 with that content.  When the seed is answered otherwise, link
    discovery returns the seed alone. *)
Theorem fetch_url_content_contract (url : str) :
  (fetch_url_content url).1 = url ∧
  (∀ body, body ≠ [] →
     ((fetch_url_content url).2 = body ↔ http_get url = Ok (200%Z, body))) ∧
  ((∀ body, http_get url = Ok (200%Z, body) → body = []) →
   ∀ max_pages, get_website_links url max_pages = {[url]}).
Proof.
  assert ((∀ body, http_get url = Ok (200%Z, body) → body = []) →
          (fetch_url_content url).2 = []) as Hempty.
  { unfold fetch_url_content.
    destruct (http_get url) as [[status body] | e]; [| done].
    destruct (Z.eqb_spec status 200) as [-> | ?]; [| done]. intros H.
    by apply H. }
  split; [apply fetch_url_content_url |]. split.
  - apply fetch_url_content_body.
  - intros Hnot max_pages. unfold get_website_links.
    by rewrite try_links_empty_content by auto.
Qed.

Lemma create_on_deleted (name : str) (st : store) :
  create_error name = None →
  create_or_keep name (delete name st) = Ok (<[name := []]> (delete name st)).
Proof.
  intros Hc. unfold create_or_keep, collections_create.
  by rewrite Hc, lookup_delete_eq.
Qed.

(** With a store that refuses neither the deletion nor the creation, a
    rebuild is its batch: the store gets the submitted objects as the
    collection, or the exception of the batch is raised. *)
Lemma index_with_willing_store (urls : list str) (name : str) (st : store) :
  delete_error name = None → create_error name = None →
  index_website_content urls name st
  = match batch_objects (map fetch_url_content urls) with
    | (objs, None) => Ok (length objs, <[name := objs]> st)
    | (_, Some e) => Raise e
    end.
Proof.
  intros Hd Hc. unfold index_website_content, delete_existing,
    collections_delete.
  rewrite Hd, create_on_deleted by done. simpl.
  destruct (batch_objects (map fetch_url_content urls)) as [objs [e|]];
    [done |].
  simpl. rewrite lookup_insert_eq. simpl.
  by rewrite insert_insert_eq, insert_delete_eq.
Qed.


(** X12. Whatever the store answers, a successful rebuild touches no
    collection but its own. *)
Theorem rebuild_leaves_other_collections (urls : list str) (name other : str)
    (st st' : store) (total_chunks : nat) :
  index_website_content urls name st = Ok (total_chunks, st') →
  other ≠ name → st' !! other = st !! other.
Proof.
  unfold index_website_content. intros E Hne.
  assert (delete_existing name st !! other = st !! other) as Hdel.
  { unfold delete_existing, collections_delete.
    destruct (delete_error name); [done |]. by rewrite lookup_delete_ne. }
  destruct (create_or_keep name (delete_existing name st)) as [st2|] eqn:Ec;
    [| done].
  assert (st2 !! other = st !! other) as Hcreate.
  { rewrite <- Hdel. revert Ec.
    unfold create_or_keep, try_except, collections_create.
    destruct (create_error name) as [e|].
    - destruct (contains _ _); [by intros [= <-] | done].
    - destruct (delete_existing name st !! name).
      + destruct (contains _ _); [by intros [= <-] | done].
      + intros [= <-]. by rewrite lookup_insert_ne. }
  simpl in E.
  destruct (batch_objects (map fetch_url_content urls)) as [objs [e|]];
    [done |].
  injection E as _ <-. by rewrite lookup_insert_ne.
Qed.



(** X14. A refusal of the creation whose message does not say
    [already exists] ends the rebuild with that exception, whatever the
    pages are; in a search it becomes the answer of status 500 with the
    message as detail. *)
Theorem rebuild_stops_on_creation_failure (urls : list str) (name : str)
    (st : store) (e : exn) :
  create_error name = Some e →
  contains (lit "already exists") (exn_str http_exception_str e) = false →
  index_website_content urls name st = Raise e ∧
  ∀ data,
    website data ≠ [] → query data ≠ [] →
    get_collection_name
      (if startswith (lit "http://") (website data)
          || startswith (lit "https://") (website data)
       then website data else lit "https://" ++ website data) = Ok name →
    search_website data st
    = Raise (HTTPException 500 (exn_str http_exception_str e)).
Proof.
  intros Hc Hmsg.
  assert (∀ urls, index_website_content urls name st = Raise e) as Hindex.
  { intros urls'. unfold index_website_content, create_or_keep,
      collections_create.
    rewrite Hc. cbn [try_except]. by rewrite Hmsg. }
  split; [apply Hindex |]. intros data Hw Hq Hname. unfold search_website.
  rewrite (bool_decide_eq_false_2 _ Hw), (bool_decide_eq_false_2 _ Hq).
  cbn [orb]. rewrite Hname. simpl. by rewrite Hindex.
Qed.

(** X15. With a store that accepts the deletion and the creation, a
    rebuild of what a rebuild has just built changes nothing: the same
    count, the same store. *)
Theorem rebuild_twice (urls : list str) (name : str) (st st' : store)
    (total_chunks : nat) :
  delete_error name = None → create_error name = None →
  index_website_content urls name st = Ok (total_chunks, st') →
  index_website_content urls name st' = Ok (total_chunks, st').
Proof.
  intros Hd Hc. rewrite !index_with_willing_store by done.
  destruct (batch_objects (map fetch_url_content urls)) as [objs [e|]];
    [done |].
  intros [= <- <-]. by rewrite insert_insert_eq.
Qed.

Lemma batch_objects_nothing_fetched (fetched : list (str * str)) :
  Forall (λ page, page.2 = []) fetched → batch_objects fetched = ([], None).
Proof.
  induction 1 as [|[url html] fetched Hpage _ IH]; [done |].
  simpl in *. by subst html.
Qed.

(** X16. When no page comes back with content, the rebuild still succeeds
    on a willing store: it returns 0, calls neither the parser nor the
    model, and leaves the collection in place, empty. *)
Theorem rebuild_without_pages (urls : list str) (name : str) (st : store) :
  delete_error name = None → create_error name = None →
  (∀ url, url ∈ urls → (fetch_url_content url).2 = []) →
  index_website_content urls name st = Ok (0, <[name := []]> st).
Proof.
  intros Hd Hc Hnone. rewrite index_with_willing_store by done.
  rewrite batch_objects_nothing_fetched; [done |].
  apply Forall_forall. intros page (url & <- & Hurl)%list_elem_of_In%in_map_iff.
  by apply Hnone, list_elem_of_In.
Qed.

(** X17. Every submitted object names, as its [url], one of the URLs
    handed to the rebuild, and one that the server answered with status
    200 and a non-empty content. *)
Theorem submitted_urls_were_fetched (urls : list str) (obj : object) :
  obj ∈ (batch_objects (map fetch_url_content urls)).1 →
  ∃ url body,
    url ∈ urls ∧ http_get url = Ok (200%Z, body) ∧ body ≠ [] ∧
    properties obj !! "url"%string = Some url.
Proof.
  intros (u & h & Hin & Hne & d & cs & c & e & _ & _ & _ & _ & _ & ->)
    %batch_objects_sound.
  apply list_elem_of_In, in_map_iff in Hin as (url & Hfetch & Hurl).
  pose proof (fetch_url_content_url url) as H1.
  pose proof (fetch_url_content_body url h Hne) as H2.
  rewrite Hfetch in H1, H2. cbn [fst snd] in H1, H2. subst u.
  exists url, h. split; [by apply list_elem_of_In |].
  split; [by apply H2 |]. split; [done |]. apply new_object_properties.
Qed.

(** X18. Every chunk stored as the [content] of a submitted object is
    trimmed, has between 1 and 500 words and more than 50 characters. *)
Theorem submitted_content_shape (fetched : list (str * str)) (obj : object) :
  obj ∈ (batch_objects fetched).1 →
  ∃ chunk,
    properties obj !! "content"%string = Some chunk ∧
    strip chunk = chunk ∧ 50 < length chunk ∧
    1 ≤ length (split chunk) ≤ 500.
Proof.
  intros (u & h & _ & _ & d & cs & c & e & _ & Hcs & Hc & Hlong & _ & ->)
    %batch_objects_sound.
  exists c. split; [apply new_object_properties |].
  unfold page_chunks in Hcs.
  destruct (chunk_text_inv _ _ _ _ Hcs Hc) as (_ & g & -> & Hne & Hw & Hlen).
  rewrite strip_join_id in Hlong by done.
  rewrite strip_join_id, split_join by done.
  split; [done |]. split; [done |].
  change (Z.to_nat 500) with 500 in Hlen. destruct g; [done |].
  cbn [length] in *. lia.
Qed.

(** ** More on the two operations *)

(** X19. A website given without [http://] or [https://] is searched as
    the same website with [https://] in front: the two requests have the
    same outcome. *)
Theorem search_defaults_to_https (data : SearchRequest) (st : store) :
  website data ≠ [] →
  startswith (lit "http://") (website data) = false →
  startswith (lit "https://") (website data) = false →
  search_website data st
  = search_website {| query := query data;
                      website := lit "https://" ++ website data |} st.
Proof.
  intros Hne Hhttp Hhttps. unfold search_website. cbn [website query].
  rewrite Hhttp, Hhttps, (startswith_app (lit "https://")), orb_true_r.
  rewrite (bool_decide_eq_false_2 _ Hne).
  by rewrite (bool_decide_eq_false_2 (lit "https://" ++ website data = [])).
Qed.


(** X21. A sweep that answers with a count has deleted nothing: the count
    is 0 and the store, which held no collection, is as it was.  A second
    sweep then answers the same. *)
Theorem sweep_twice (st st' : store) (deleted_count : nat) :
  clear_all_collections st = Ok (deleted_count, st') →
  deleted_count = 0 ∧ st' = st ∧ st = ∅ ∧
  clear_all_collections st' = Ok (0, st').
Proof.
  intros E. pose proof E as E'. unfold clear_all_collections, try_except in E.
  destruct (collections_list_all st) as [[|collection rest]|] eqn:El;
    [| done | done].
  apply collections_list_all_nil in El. subst st.
  injection E as <- <-. done.
Qed.

(** X22. A search that fails answers with status 500, and the detail of
    the answer is the text of the exception of the first stage that
    failed: the validation, whose exception of status 400 is caught like
    any other, the derivation of the collection name, the rebuild of the
    index on the links of the site, or the query. *)
Theorem search_failure_is_500_with_cause (data : SearchRequest) (st : store)
    (e : exn) :
  search_website data st = Raise e →
  ((website data = [] ∨ query data = []) ∧
   e = HTTPException 500
         (http_exception_str 400 (lit "Website URL and query are required")))
  ∨
  (website data ≠ [] ∧ query data ≠ [] ∧
   ∃ site cause,
     site = (if startswith (lit "http://") (website data)
                || startswith (lit "https://") (website data)
             then website data else lit "https://" ++ website data) ∧
     e = HTTPException 500 (exn_str http_exception_str cause) ∧
     (get_collection_name site = Raise cause ∨
      ∃ collection_name,
        get_collection_name site = Ok collection_name ∧
        (index_website_content (elements (get_website_links site 1500))
           collection_name st = Raise cause ∨
         ∃ total_chunks st1,
           index_website_content (elements (get_website_links site 1500))
             collection_name st = Ok (total_chunks, st1) ∧
           search_content (query data) collection_name 10 st1 = Raise cause))).
Proof.
  unfold search_website, try_except.
  destruct (bool_decide_reflect (website data = [])) as [Hw | Hw].
  { intros [= <-]. left. split; [by left | done]. }
  destruct (bool_decide_reflect (query data = [])) as [Hq | Hq].
  { intros [= <-]. left. split; [by right | done]. }
  cbn [orb]. set (site := if _ : bool then website data else _).
  intros E. right. split; [done |]. split; [done |]. exists site.
  destruct (get_collection_name site) as [name | cause] eqn:En.
  - cbn [mbind exc_bind] in E.
    destruct (index_website_content _ name st) as [[n st1] | cause] eqn:Ei.
    + cbn [mbind exc_bind] in E.
      destruct (search_content _ name 10 st1) as [res | cause] eqn:Es;
        [done |].
      injection E as <-. exists cause. split; [done |]. split; [done |].
      right. exists name. split; [done |]. right. by exists n, st1.
    + injection E as <-. exists cause. split; [done |]. split; [done |].
      right. exists name. split; [done |]. by left.
  - injection E as <-. exists cause. split; [done |]. split; [done |].
    by left.
Qed.

End backend.

(** ** The small site, run *)

Example seed_page_indexed :
  batch_objects site_parser
      plain_get_text plain_tag_text plain_soup_str
      site_encode [(seed_url, seed_html)]
  = ([seed_object], None).
Proof. vm_compute. reflexivity. Qed.

Example collection_name_of_site :
  get_collection_name plain_netloc (lit "https://my-site.example.com/docs")
  = Ok (lit "Website_my_site_example_com").
Proof. vm_compute. reflexivity. Qed.

Example collection_name_of_digit_site :
  get_collection_name plain_netloc (lit "https://9gag.com")
  = Ok (lit "Website_website_9gag_com").
Proof. vm_compute. reflexivity. Qed.

Example first_search_leaves_seed_store :
  snd <$> search_website site_http_get site_parser
      plain_get_text plain_tag_text plain_soup_str
      site_urljoin plain_netloc
            site_encode starlette_str no_error no_error site_near_vector 0 1.5
            {| query := lit "welcome"; website := lit "example.com" |} ∅
  = Ok seed_store.
Proof. vm_compute. reflexivity. Qed.

(** With a cap of 1 the loop stops after the first link it adds, with two
    URLs in the set. *)
Example two_links_at_cap_one :
  size (get_website_links site_http_get site_parser site_urljoin seed_url 1)
  = 2.
Proof. vm_compute. reflexivity. Qed.

(** Without a positive [max_tokens] there is nothing to concatenate:
    [range] refuses a step of 0 and is empty for a negative one. *)
Example chunk_text_zero_step :
  chunk_text (lit "a few words") 0
  = Raise (Error (lit "range() arg 3 must not be zero")).
Proof. reflexivity. Qed.

Example chunk_text_negative_step : chunk_text (lit "a few words") (-1) = Ok [].
Proof. reflexivity. Qed.

(** C1: the request with an empty query, on the small site. *)
Lemma validation_failure_witness :
  search_website site_http_get site_parser
      plain_get_text plain_tag_text plain_soup_str
      site_urljoin plain_netloc
    site_encode starlette_str no_error no_error site_near_vector 0 1.5
    {| query := []; website := lit "example.com" |} ∅
  = Raise (HTTPException 500
             (starlette_str 400 (lit "Website URL and query are required"))).
Proof.
  apply (validation_failure_is_server_error site_http_get site_parser
      plain_get_text plain_tag_text plain_soup_str
           site_urljoin plain_netloc site_encode starlette_str no_error
           no_error site_near_vector 0 1.5).
  right. reflexivity.
Defined.

(** C2, as the claim states it, fails on the seed page: the snippet of the
    submitted object is not a prefix of the page as fetched, whose
    [script] element the cleaning has removed. *)
Lemma html_snippet_not_prefix_of_raw :
  ¬ ∀ obj,
      obj ∈ (batch_objects site_parser
          plain_get_text plain_tag_text plain_soup_str
          site_encode [(seed_url, seed_html)]).1 →
      ∃ snippet,
        properties obj !! "html_snippet"%string = Some snippet ∧
        snippet `prefix_of` seed_html.
Proof.
  intros H.
  assert (forallb
            (λ obj, if properties obj !! "html_snippet"%string is Some snippet
                    then startswith snippet seed_html else false)
            (batch_objects site_parser
                plain_get_text plain_tag_text plain_soup_str
                site_encode [(seed_url, seed_html)]).1
          = true) as Hall.
  { apply forallb_forall. intros obj Hin%list_elem_of_In.
    destruct (H obj Hin) as (snippet & -> & Hp). by apply startswith_prefix. }
  vm_compute in Hall. discriminate.
Qed.

(** The snippet of the seed page starts where the raw page does and goes
    on past the title without the [script] element. *)
Example seed_snippet_start :
  take 46 seed_snippet = lit "<html><head><title>Example Site</title></head>".
Proof. vm_compute. reflexivity. Qed.

(** C2 as amended, for the object submitted for the seed page. *)
Lemma html_snippet_witness :
  ∃ url html doc snippet,
    (url, html) ∈ [(seed_url, seed_html)] ∧ html ≠ [] ∧
    clean_html site_parser html = Ok doc ∧
    properties seed_object !! "html_snippet"%string = Some snippet ∧
    snippet = take 1000 (plain_soup_str doc) ∧
    length snippet ≤ 1000 ∧
    properties seed_object !! "url"%string = Some url ∧
    properties seed_object !! "page_title"%string = Some (page_title_of plain_tag_text doc).
Proof.
  apply (html_snippet_of_cleaned_markup site_parser
      plain_get_text plain_tag_text plain_soup_str
      site_encode
           [(seed_url, seed_html)]).
  apply list_elem_of_In. vm_compute. left. reflexivity.
Defined.

(** C3, for the seed URL. *)
Lemma collection_name_witness :
  get_collection_name plain_netloc seed_url
  = get_collection_name plain_netloc seed_url ∧
  ∃ name c rest,
    get_collection_name plain_netloc seed_url = Ok name ∧
    length name ≤ 50 ∧ name = c :: rest ∧ isalpha c = true.
Proof.
  exact (get_collection_name_pure_bounded plain_netloc seed_url seed_url
           eq_refl).
Defined.

(** C4, as the claim states it, fails for a cap of 0: the seed is returned
    all the same, here for a page the server does not have. *)
Lemma seed_returned_beyond_cap_zero :
  ¬ (Z.of_nat
       (size (get_website_links site_http_get site_parser site_urljoin
                (lit "https://example.com/missing") 0)) ≤ 0)%Z.
Proof. vm_compute. intros H. by apply H. Qed.

(** C4 as amended: the bound, for the seed page and a cap of 2. *)
Lemma links_bound_witness :
  (Z.of_nat
     (size (get_website_links site_http_get site_parser site_urljoin
              seed_url 2)) ≤ 2)%Z.
Proof.
  apply (get_website_links_seed_and_bound site_http_get site_parser
           site_urljoin seed_url 2).
  lia.
Defined.

(** C5 (the code differs). The claim has the result hold the seed and the
    URLs of the links of the site, a link to another host left out.  On a
    page with two links of the site and a protocol-relative link to
    another host the code returns more: that link begins with [/], so the
    test for a path of the site lets it through, [urljoin] reads it as a
    URL on the other host, and this URL is returned with the seed and the
    two links.  The absolute links to another host the sibling test, on
    the text of the seed URL, does leave out. *)
Lemma protocol_relative_link_returned :
  lit "https://cdn.other.org/lib/"
    ∈ get_website_links site_http_get site_parser site_urljoin docs_url 1500 ∧
  get_website_links site_http_get site_parser site_urljoin docs_url 1500
  ≠ {[ docs_url; lit "https://docs.example.com/guide";
       lit "https://docs.example.com/api" ]}.
Proof.
  assert (lit "https://cdn.other.org/lib/"
            ∈ get_website_links site_http_get site_parser site_urljoin
                docs_url 1500) as Hin.
  { apply elem_of_elements, list_elem_of_In. vm_compute.
    repeat (first [left; reflexivity | right]). }
  split; [exact Hin |]. intros E.
  pose proof (eq_ind _ (λ X, lit "https://cdn.other.org/lib/" ∈ X) Hin _ E)
    as Hin'.
  cbv beta in Hin'.
  apply elem_of_union in Hin' as [Hin' | H3%elem_of_singleton];
    [| vm_compute in H3; discriminate H3].
  apply elem_of_union in Hin' as [H1%elem_of_singleton | H2%elem_of_singleton].
  - vm_compute in H1. discriminate H1.
  - vm_compute in H2. discriminate H2.
Qed.

(** The rule of admission on the seed page, which has two links that pass
    the test and one foreign link. *)
Lemma link_admission_witness :
  get_website_links site_http_get site_parser site_urljoin seed_url 1500
  = {[ seed_url; lit "https://example.com/about";
       lit "https://example.com/contact" ]}.
Proof.
  apply (proj2 (link_admission_rule site_http_get site_parser site_urljoin
                  seed_url 1500)
           seed_doc (lit "/about") (lit "https://example.com/contact")
           (lit "https://other.org/")).
  - vm_compute. discriminate.
  - vm_compute. reflexivity.
  - vm_compute. reflexivity.
  - left. split; vm_compute; reflexivity.
  - vm_compute. reflexivity.
  - right. repeat split; vm_compute; reflexivity.
  - vm_compute. reflexivity.
  - split; vm_compute; reflexivity.
  - lia.
Defined.

(** C6, for a text of 1200 words and chunks of 500. *)
Lemma chunk_text_witness :
  ∃ chunks,
    chunk_text text_1200 500 = Ok chunks ∧
    concat (map split chunks) = split text_1200 ∧
    (500%Z = 500%Z → length (split text_1200) = 1200 →
     map (λ chunk, length (split chunk)) chunks = [500; 500; 200]).
Proof. apply (chunk_text_reproduces_words text_1200 500). lia. Defined.


(** C8, for a query on the store a first search leaves; the hit is at
    distance 0.357. *)
Lemma score_witness :
  ∃ query_embedding hits,
    site_encode (lit "welcome") = Ok query_embedding ∧
    site_near_vector (seed_store !! lit "Website_example_com")
      query_embedding 10 = Ok hits ∧
    Forall2 (λ obj result,
               score result = py_round (1 - distance obj)%float 3 ∧
               (∀ sign m k,
                  Prim2SF (1 - distance obj)%float
                  = S754_finite sign m (Zneg k) →
                  (Zpos m ≤ 2 ^ Zpos k)%Z →
                  ∃ n : Z,
                    (0 ≤ n ≤ 1000)%Z ∧
                    (Z.abs (2 * (n * 2 ^ Zpos k - Zpos m * 1000))
                     ≤ 2 ^ Zpos k)%Z ∧
                    (Z.abs (2 * (n * 2 ^ Zpos k - Zpos m * 1000))
                     = 2 ^ Zpos k → Z.even n = true)%Z ∧
                    score result
                    = (if sign then - (float_of_Z n / 1000)
                       else float_of_Z n / 1000)%float) ∧
               (distance obj = 0%float → score result = 1%float) ∧
               (distance obj = 1%float → score result = 0%float) ∧
               (distance obj = 0.357%float → score result = 0.643%float) ∧
               (distance obj = 0.3574%float → score result = 0.643%float) ∧
               (distance obj = 0.3576%float → score result = 0.642%float) ∧
               (distance obj = 0.0004%float → score result = 1%float) ∧
               (distance obj = 0.9375%float → score result = 0.062%float) ∧
               (distance obj = 0.8125%float → score result = 0.188%float))
            hits [seed_result].
Proof.
  apply (score_is_rounded_similarity site_encode site_near_vector
           (lit "welcome") (lit "Website_example_com") 10 seed_store
           [seed_result]).
  vm_compute. reflexivity.
Defined.

(** C9, for a hit with a content of 305 characters and a snippet of 600. *)
Lemma truncation_witness :
  ∃ stored snippet,
    hit_properties long_hit !! "content"%string = Some stored ∧
    (length stored ≤ 300 → content long_result = stored) ∧
    (300 < length stored →
       content long_result = take 300 stored ++ lit "..." ∧
       length (content long_result) = 303) ∧
    html_snippet long_result = Some snippet ∧
    snippet = take 500 (default [] (hit_properties long_hit
                                      !! "html_snippet"%string)) ∧
    length snippet ≤ 500.
Proof.
  apply (search_result_truncation long_hit long_result).
  vm_compute. reflexivity.
Defined.

(** C10: the sweep of the store a first search leaves, which holds the
    one collection [Website_example_com], answers 500 and deletes
    nothing. *)
Lemma sweep_witness :
  clear_all_collections starlette_str no_error None seed_store
  = Raise (HTTPException 500 (lit "'str' object has no attribute 'name'")).
Proof.
  apply (proj1 (proj2 (sweep_stops_at_first_collection plain_netloc
                         starlette_str no_error None))
           seed_store (lit "Website_example_com") [seed_object]).
  - reflexivity.
  - vm_compute. reflexivity.
Defined.

(** ** Witnesses of the further properties *)

(** X1, for the seed page. *)
Lemma clean_html_removes_tags_witness :
  (∀ n, n ∈ nodes seed_cleaned → is_element removed_tags n = false) ∧
  ∃ parsed,
    site_parser seed_html = Ok parsed ∧
    ∀ s, Text s ∈ nodes seed_cleaned → Text s ∈ nodes parsed.
Proof.
  apply (clean_html_removes_tags site_parser seed_html seed_cleaned).
  vm_compute. reflexivity.
Defined.

(** X2, for the second page, which has none of the elements. *)
Lemma clean_html_keeps_clean_page_witness :
  clean_html site_parser docs_html = Ok docs_doc.
Proof.
  apply (clean_html_keeps_clean_page site_parser docs_html docs_doc).
  - vm_compute. reflexivity.
  - assert (forallb (λ n, negb (is_element removed_tags n)) (nodes docs_doc)
            = true) as Hall by (vm_compute; reflexivity).
    intros n Hn%list_elem_of_In.
    apply (proj1 (forallb_forall _ _) Hall) in Hn.
    by apply negb_true_iff in Hn.
Defined.

(** X3, for the text of 1200 words. *)
Lemma chunk_text_positions_witness :
  ∃ chunks,
    chunk_text text_1200 500 = Ok chunks ∧
    length chunks = (length (split text_1200) + Z.to_nat 500 - 1) / Z.to_nat 500 ∧
    ∀ i chunk,
      chunks !! i = Some chunk →
      split chunk = take (Z.to_nat 500) (drop (i * Z.to_nat 500) (split text_1200)) ∧
      1 ≤ length (split chunk) ≤ Z.to_nat 500 ∧
      (i + 1 < length chunks → length (split chunk) = Z.to_nat 500).
Proof. apply (chunk_text_positions text_1200 500). lia. Defined.

(** X4, for a text of three spaces. *)
Lemma chunk_text_blank_witness :
  chunk_text (lit "   ") 500 = Ok [] ↔
  Forall (λ c, isspace c = true) (lit "   ").
Proof. apply (chunk_text_blank (lit "   ") 500). lia. Defined.

(** X5, for a step of -1. *)
Lemma chunk_text_without_positive_step_witness :
  chunk_text (lit "a few words") (-1)
  = if (-1 =? 0)%Z
    then Raise (Error (lit "range() arg 3 must not be zero")) else Ok [].
Proof.
  apply (chunk_text_without_positive_step (lit "a few words") (-1)). lia.
Defined.

(** X6, for the second chunk of a text of three words. *)
Lemma chunk_is_trimmed_witness :
  strip (lit "words") = lit "words" ∧ lit "words" ≠ [].
Proof.
  apply (chunk_is_trimmed (lit "  a few   words ") 2
           [lit "a few"; lit "words"] (lit "words")).
  - vm_compute. reflexivity.
  - apply list_elem_of_In. simpl. auto.
Defined.

(** X7, for the seed URL. *)
Lemma collection_name_charset_witness :
  Forall (λ c, is_word_char c = true) (lit "Website_example_com") ∧
  9 ≤ length (lit "Website_example_com") ≤ 50.
Proof.
  apply (collection_name_charset plain_netloc seed_url
           (lit "Website_example_com")).
  vm_compute. reflexivity.
Defined.

(** X8, for two hosts that differ in a dot against a hyphen. *)
Lemma collection_name_dot_hyphen_witness :
  get_collection_name plain_netloc (lit "https://my.site.com")
  = get_collection_name plain_netloc (lit "https://my-site.com").
Proof.
  apply (collection_name_dot_hyphen plain_netloc (lit "https://my.site.com")
           (lit "https://my-site.com") (lit "my") (lit "site.com"));
    vm_compute; reflexivity.
Defined.

(** X9, for a query on the store a first search leaves. *)
Lemma search_content_all_or_nothing_witness :
  ((∃ res, search_content site_encode site_near_vector (lit "welcome")
             (lit "Website_example_com") 10 seed_store = Ok res) ↔
   Forall (λ obj, is_Some (hit_properties obj !! "url"%string) ∧
                  is_Some (hit_properties obj !! "content"%string))
          [seed_hit]) ∧
  (∀ res, search_content site_encode site_near_vector (lit "welcome")
            (lit "Website_example_com") 10 seed_store = Ok res →
          Forall2 (λ obj result,
                     hit_properties obj !! "url"%string = Some (url result))
                  [seed_hit] res).
Proof.
  apply (search_content_all_or_nothing site_encode site_near_vector
           (lit "welcome") (lit "Website_example_com") 10 seed_store
           [float_of_Z 7] [seed_hit]);
    vm_compute; reflexivity.
Defined.

(** X10, for a page the server does not have. *)
Lemma fetch_url_content_contract_witness :
  get_website_links site_http_get site_parser site_urljoin
    (lit "https://example.com/missing") 1500
  = {[ lit "https://example.com/missing" ]}.
Proof.
  apply (proj2 (proj2 (fetch_url_content_contract site_http_get site_parser
                         site_urljoin (lit "https://example.com/missing")))).
  intros body H. vm_compute in H. discriminate H.
Defined.


Lemma rebuild_leaves_other_collections_witness :
  seed_store !! lit "Notes" = (∅ : store) !! lit "Notes".
Proof.
  apply (rebuild_leaves_other_collections site_http_get site_parser
      plain_get_text plain_tag_text plain_soup_str
           site_encode starlette_str no_error no_error [seed_url]
           (lit "Website_example_com") (lit "Notes") ∅ seed_store 1).
  - vm_compute. reflexivity.
  - intros H. vm_compute in H. discriminate H.
Defined.

Lemma rebuild_twice_witness :
  index_website_content site_http_get site_parser
      plain_get_text plain_tag_text plain_soup_str
      site_encode starlette_str
    no_error no_error [seed_url] (lit "Website_example_com") seed_store
  = Ok (1, seed_store).
Proof.
  apply (rebuild_twice site_http_get site_parser
      plain_get_text plain_tag_text plain_soup_str
      site_encode starlette_str
           no_error no_error [seed_url] (lit "Website_example_com") ∅
           seed_store 1);
    vm_compute; reflexivity.
Defined.


(** X14, when the store refuses the creation. *)
Lemma rebuild_stops_on_creation_failure_witness :
  index_website_content site_http_get site_parser
      plain_get_text plain_tag_text plain_soup_str
      site_encode starlette_str
    no_error refusal [seed_url] (lit "Website_example_com") ∅
  = Raise (Error (lit "connection timed out")) ∧
  ∀ data,
    website data ≠ [] → query data ≠ [] →
    get_collection_name plain_netloc
      (if startswith (lit "http://") (website data)
          || startswith (lit "https://") (website data)
       then website data else lit "https://" ++ website data)
    = Ok (lit "Website_example_com") →
    search_website site_http_get site_parser
        plain_get_text plain_tag_text plain_soup_str
        site_urljoin plain_netloc
      site_encode starlette_str no_error refusal site_near_vector 0 1.5
      data ∅
    = Raise (HTTPException 500
               (exn_str starlette_str (Error (lit "connection timed out")))).
Proof.
  apply (rebuild_stops_on_creation_failure site_http_get site_parser
      plain_get_text plain_tag_text plain_soup_str
           site_urljoin plain_netloc site_encode starlette_str no_error
           refusal site_near_vector 0 1.5 [seed_url]
           (lit "Website_example_com") ∅
           (Error (lit "connection timed out")));
    vm_compute; reflexivity.
Defined.

(** X16, for a page the server does not have. *)
Lemma rebuild_without_pages_witness :
  index_website_content site_http_get site_parser
      plain_get_text plain_tag_text plain_soup_str
      site_encode starlette_str
    no_error no_error [lit "https://example.com/missing"]
    (lit "Website_example_com") ∅
  = Ok (0, <[lit "Website_example_com" := []]> ∅).
Proof.
  apply (rebuild_without_pages site_http_get site_parser
      plain_get_text plain_tag_text plain_soup_str
      site_encode
           starlette_str no_error no_error [lit "https://example.com/missing"]
           (lit "Website_example_com") ∅).
  - reflexivity.
  - reflexivity.
  - intros url Hurl%list_elem_of_In. destruct Hurl as [<- | []].
    vm_compute. reflexivity.
Defined.

(** X17 and X18, for the object submitted for the seed page. *)
Lemma submitted_urls_were_fetched_witness :
  ∃ url body,
    url ∈ [seed_url] ∧ site_http_get url = Ok (200%Z, body) ∧ body ≠ [] ∧
    properties seed_object !! "url"%string = Some url.
Proof.
  apply (submitted_urls_were_fetched site_http_get site_parser
      plain_get_text plain_tag_text plain_soup_str
      site_encode
           [seed_url] seed_object).
  apply list_elem_of_In. vm_compute. left. reflexivity.
Defined.

Lemma submitted_content_shape_witness :
  ∃ chunk,
    properties seed_object !! "content"%string = Some chunk ∧
    strip chunk = chunk ∧ 50 < length chunk ∧
    1 ≤ length (split chunk) ≤ 500.
Proof.
  apply (submitted_content_shape site_parser
      plain_get_text plain_tag_text plain_soup_str
      site_encode
           [(seed_url, seed_html)] seed_object).
  apply list_elem_of_In. vm_compute. left. reflexivity.
Defined.

(** X19 and X20, for the request for [example.com]. *)
Lemma search_defaults_to_https_witness :
  search_website site_http_get site_parser
      plain_get_text plain_tag_text plain_soup_str
      site_urljoin plain_netloc
    site_encode starlette_str no_error no_error site_near_vector 0 1.5
    seed_request ∅
  = search_website site_http_get site_parser
      plain_get_text plain_tag_text plain_soup_str
      site_urljoin plain_netloc
      site_encode starlette_str no_error no_error site_near_vector 0 1.5
      {| query := query seed_request;
         website := lit "https://" ++ website seed_request |} ∅.
Proof.
  apply (search_defaults_to_https site_http_get site_parser
      plain_get_text plain_tag_text plain_soup_str
      site_urljoin
           plain_netloc site_encode starlette_str no_error no_error
           site_near_vector 0 1.5 seed_request ∅).
  - intros H. vm_compute in H. discriminate H.
  - reflexivity.
  - reflexivity.
Defined.


(** X21, for the sweep of a store without collections. *)
Lemma sweep_twice_witness :
  0 = 0 ∧ (∅ : store) = ∅ ∧ (∅ : store) = ∅ ∧
  clear_all_collections starlette_str no_error None ∅ = Ok (0, ∅).
Proof.
  apply (sweep_twice starlette_str no_error None ∅ ∅ 0).
  vm_compute. reflexivity.
Defined.

(** X22, for a request on a store that refuses the creation of the
    collection. *)
Lemma search_failure_is_500_with_cause_witness :
  ((website seed_request = [] ∨ query seed_request = []) ∧
   HTTPException 500 (lit "connection timed out")
   = HTTPException 500
       (starlette_str 400 (lit "Website URL and query are required")))
  ∨
  (website seed_request ≠ [] ∧ query seed_request ≠ [] ∧
   ∃ site cause,
     site = (if startswith (lit "http://") (website seed_request)
                || startswith (lit "https://") (website seed_request)
             then website seed_request
             else lit "https://" ++ website seed_request) ∧
     HTTPException 500 (lit "connection timed out")
     = HTTPException 500 (exn_str starlette_str cause) ∧
     (get_collection_name plain_netloc site = Raise cause ∨
      ∃ collection_name,
        get_collection_name plain_netloc site = Ok collection_name ∧
        (index_website_content site_http_get site_parser plain_get_text
           plain_tag_text plain_soup_str site_encode starlette_str no_error
           refusal
           (elements (get_website_links site_http_get site_parser
                        site_urljoin site 1500))
           collection_name ∅ = Raise cause ∨
         ∃ total_chunks st1,
           index_website_content site_http_get site_parser plain_get_text
             plain_tag_text plain_soup_str site_encode starlette_str no_error
             refusal
             (elements (get_website_links site_http_get site_parser
                          site_urljoin site 1500))
             collection_name ∅ = Ok (total_chunks, st1) ∧
           search_content site_encode site_near_vector (query seed_request)
             collection_name 10 st1 = Raise cause))).
Proof.
  apply (search_failure_is_500_with_cause site_http_get site_parser
           plain_get_text plain_tag_text plain_soup_str
           site_urljoin plain_netloc site_encode starlette_str no_error
           refusal site_near_vector 0 1.5 seed_request ∅).
  vm_compute. reflexivity.
Defined.
